(** * Tooltip: show/hide scheduling of [src/tooltip/index.js]

    A shallow embedding of the [Tooltip] class: the class instance and the
    part of the browser it talks to (elements, listeners, timers, the
    positioning engine) are explicit state, every method is a computation
    in a state-and-exception monad, and closures (event listeners, timer
    callbacks) are data that an interpreter runs. *)

From Stdlib Require Import ZArith Ascii.
From stdpp Require Import base decidable option list strings numbers.

Open Scope string_scope.
Open Scope list_scope.

(** ** Values *)

(** An element is a reference into the element store of the window. *)
Abbreviation node := nat (only parsing).

Inductive js_error := TypeError | HierarchyRequestError.

(** [options.title]: String | HTMLElement | TitleFunction.  [TitleAbsent]
    stands for a falsy value that is not a string ([undefined], [null]). *)
Inductive title_val :=
| TitleString (s : string)
| TitleElement (el : node)
| TitleFunction (f : node -> string)
| TitleAbsent.

(** [options.container]: HTMLElement | String | false. *)
Inductive container_val :=
| ContainerFalse
| ContainerElement (el : node)
| ContainerSelector (query : string).

(** [options.delay]: Number | { show, hide }, in whole milliseconds. *)
Inductive delay_val :=
| DelayNumber (ms : Z)
| DelayObject (show hide : Z).

(** [options.trigger]: a string, or anything else. *)
Inductive trigger_val :=
| TriggerString (s : string)
| TriggerOther.

(** [options.template], as the browser parses it when it is assigned to
    [innerHTML].  Three markups are covered: the empty string (no node at
    all), a wrapper without children (no node matches [innerSelector]),
    and the markup of [DEFAULT_OPTIONS], the shape the documentation asks
    for: a wrapper with an arrow node and an inner node below it.  None of
    them sets an inline [style]. *)
Inductive template_val :=
| EmptyMarkup
| WrapperOnly
| WrapperWithInner.

(** A value where the source expects an element: a property holding an
    element, [null], or nothing yet. *)
Inductive ref :=
| Undefined
| Null
| Elem (el : node).

(** The same, where a string may turn up as well ([options.container]). *)
Inductive js_ref :=
| JNull
| JString (s : string)
| JElement (el : node).

Record Options := mkOptions {
  container : container_val;
  delay : delay_val;
  html : bool;
  placement : string;
  title : title_val;
  template : template_val;
  trigger : trigger_val;
  boundariesElement : option node;
  offset : Z
}.

(** The options object a caller passes: any key may be missing. *)
Record UserOptions := mkUserOptions {
  u_container : option container_val;
  u_delay : option delay_val;
  u_html : option bool;
  u_placement : option string;
  u_title : option title_val;
  u_template : option template_val;
  u_trigger : option trigger_val;
  u_boundariesElement : option node;
  u_offset : option Z
}.

Definition DEFAULT_OPTIONS : Options := {|
  container := ContainerFalse;
  delay := DelayNumber 0;
  html := false;
  placement := "top";
  title := TitleString "";
  template := WrapperWithInner;
  trigger := TriggerString "hover focus";
  boundariesElement := None;
  offset := 0
|}.

(** [Object.assign({}, DEFAULT_OPTIONS, options)] *)
Definition assign_options (d : Options) (u : UserOptions) : Options := {|
  container := default (container d) (u_container u);
  delay := default (delay d) (u_delay u);
  html := default (html d) (u_html u);
  placement := default (placement d) (u_placement u);
  title := default (title d) (u_title u);
  template := default (template d) (u_template u);
  trigger := default (trigger d) (u_trigger u);
  boundariesElement := u_boundariesElement u;
  offset := default (offset d) (u_offset u)
|}.

(** ** Events, listeners, timers *)

(** The properties of an event object that the source reads or writes,
    and [relatedTarget], which browsers set on mouse events.
    [relatedreference] is not a property browsers set: it is [Undefined]
    on every event they dispatch. *)
Record Event := mkEvent {
  type : string;
  relatedreference : ref;
  toElement : ref;
  relatedTarget : ref;
  usedByTooltip : bool
}.

Definition set_usedByTooltip (b : bool) (e : Event) : Event :=
  mkEvent (type e) (relatedreference e) (toElement e) (relatedTarget e) b.

(** The three arrow functions of the source that become listeners.  Each
    evaluation of an arrow function yields a new function object: [id] is
    its identity.  [TransferCallback] keeps the [evt] it closes over. *)
Inductive listener :=
| DirectHandler (id : nat)
| OppositeHandler (id : nat)
| TransferCallback (id : nat) (evt : Event).

Global Instance ref_eq_dec : EqDecision ref.
Proof. solve_decision. Defined.
Global Instance Event_eq_dec : EqDecision Event.
Proof. solve_decision. Defined.
Global Instance listener_eq_dec : EqDecision listener.
Proof. solve_decision. Defined.

(** The two arrow functions handed to [window.setTimeout]. *)
Inductive timer_callback :=
| ShowTimer
| HideTimer (evt : Event).

(** ** The window *)

Inductive content :=
| NoContent
| InnerText (s : string)
| InnerHTML (s : string).

Record Element := mkElement {
  parentNode : option node;
  title_attribute : option string;
  style_display : string;
  inner : content;
  listeners : list (string * listener)
}.

Definition blank_element : Element := mkElement None None "" NoContent [].

Record PopperOptions := mkPopperOptions {
  po_placement : string;
  po_arrowElement : string;
  po_boundariesElement : option node
}.

(** Modelled from the spec: the positioning engine ([../popper/index.js] is
    not part of the sources).  The spec gives it as a black box with
    [create(reference, floating, options) -> instance], [instance.update()]
    and [instance.destroy()]; an instance records what it was created with,
    how often it was asked to recompute, and whether it was destroyed. *)
Record PopperInstance := mkPopper {
  popper_reference : node;
  popper_floating : node;
  popper_options : PopperOptions;
  popper_updates : nat;
  popper_destroyed : bool
}.

Record Window := mkWindow {
  elements : list Element;
  document_body : node;
  (* what [document.querySelector] answers *)
  document_queries : list (string * node);
  poppers : list PopperInstance;
  (* armed one-shot timers: delay in ms and callback *)
  timers : list (Z * timer_callback);
  (* number of function objects created so far *)
  functions : nat
}.

(** ** The class instance *)

Record Tooltip := mkTooltip {
  reference : node;
  options : Options;
  _isOpen : bool;
  (* [Undefined] until the first show, [Null] after dispose *)
  _tooltipNode : ref;
  popperInstance : option nat;
  (* the {event, func} records *)
  _events : list (string * listener)
}.

Definition arrowSelector : string := ".tooltip-arrow, .tooltip__arrow".
Definition innerSelector : string := ".tooltip-inner, .tooltip__inner".

Record state := mkState {
  this : Tooltip;
  window : Window
}.

(** Field updates. *)
Definition set_isOpen (b : bool) (t : Tooltip) : Tooltip :=
  mkTooltip (reference t) (options t) b (_tooltipNode t) (popperInstance t) (_events t).
Definition set_tooltipNode (n : ref) (t : Tooltip) : Tooltip :=
  mkTooltip (reference t) (options t) (_isOpen t) n (popperInstance t) (_events t).
Definition set_popperInstance (p : option nat) (t : Tooltip) : Tooltip :=
  mkTooltip (reference t) (options t) (_isOpen t) (_tooltipNode t) p (_events t).
Definition set_events (l : list (string * listener)) (t : Tooltip) : Tooltip :=
  mkTooltip (reference t) (options t) (_isOpen t) (_tooltipNode t) (popperInstance t) l.

Definition set_elements (l : list Element) (w : Window) : Window :=
  mkWindow l (document_body w) (document_queries w) (poppers w) (timers w) (functions w).
Definition set_poppers (l : list PopperInstance) (w : Window) : Window :=
  mkWindow (elements w) (document_body w) (document_queries w) l (timers w) (functions w).
Definition set_timers (l : list (Z * timer_callback)) (w : Window) : Window :=
  mkWindow (elements w) (document_body w) (document_queries w) (poppers w) l (functions w).
Definition set_functions (k : nat) (w : Window) : Window :=
  mkWindow (elements w) (document_body w) (document_queries w) (poppers w) (timers w) k.

Definition set_parentNode (p : option node) (e : Element) : Element :=
  mkElement p (title_attribute e) (style_display e) (inner e) (listeners e).
Definition set_style_display (d : string) (e : Element) : Element :=
  mkElement (parentNode e) (title_attribute e) d (inner e) (listeners e).
Definition set_inner (c : content) (e : Element) : Element :=
  mkElement (parentNode e) (title_attribute e) (style_display e) c (listeners e).
Definition set_listeners (l : list (string * listener)) (e : Element) : Element :=
  mkElement (parentNode e) (title_attribute e) (style_display e) (inner e) l.

Definition on_this (f : Tooltip -> Tooltip) (s : state) : state :=
  mkState (f (this s)) (window s).
Definition on_window (f : Window -> Window) (s : state) : state :=
  mkState (this s) (f (window s)).
Definition on_elements (f : list Element -> list Element) (s : state) : state :=
  on_window (fun w => set_elements (f (elements w)) w) s.

(** An element reference always points at an allocated element in the
    source; the store answers a reference it has not allocated with the
    blank element and ignores updates of it. *)
Definition element_at (els : list Element) (n : node) : Element :=
  default blank_element (els !! n).

(** ** The monad: state, and completions that are normal or abrupt *)

Inductive completion (A : Type) :=
| Normal (a : A)
| Throw (e : js_error).
Arguments Normal {A} a.
Arguments Throw {A} e.

Definition JS (A : Type) : Type := state -> completion A * state.

Definition ret {A} (a : A) : JS A := fun s => (Normal a, s).
Definition bind {A B} (m : JS A) (f : A -> JS B) : JS B :=
  fun s => match m s with
           | (Normal a, s') => f a s'
           | (Throw e, s') => (Throw e, s')
           end.
Definition throw {A} (e : js_error) : JS A := fun s => (Throw e, s).
Definition get : JS state := fun s => (Normal s, s).
Definition modify (f : state -> state) : JS unit := fun s => (Normal tt, f s).

Declare Scope js_scope.
Delimit Scope js_scope with js.
Notation "'let*' x ':=' m 'in' k" := (bind m (fun x => k))
  (at level 10, x name, m at level 100, k at level 200) : js_scope.
Notation "m ';;' k" := (bind m (fun _ => k))
  (at level 100, k at level 200, right associativity) : js_scope.
Open Scope js_scope.

(** What a method that ends in [return this] hands back. *)
Variant returned := ReturnsThis.

(** ** DOM primitives *)

(** [a.contains(b)]: [a] is [b] or an ancestor of [b].  The walk follows
    [parentNode]; a tree of [n] elements has no longer chain than [n]. *)
Fixpoint is_ancestor (fuel : nat) (els : list Element) (a b : node) : bool :=
  if decide (a = b) then true
  else match fuel with
       | O => false
       | S fuel' =>
           match parentNode (element_at els b) with
           | Some p => is_ancestor fuel' els a p
           | None => false
           end
       end.

(** [contains(null)] and [contains(undefined)] are [false]. *)
Definition contains (els : list Element) (a : node) (b : ref) : bool :=
  match b with
  | Elem b => is_ancestor (length els) els a b
  | _ => false
  end.

Definition createElement : JS node :=
  let* s := get in
  modify (on_elements (fun els => els ++ [blank_element]));;
  ret (length (elements (window s))).

(** [parent.appendChild(child)]: refused when [child] contains [parent]. *)
Definition appendChild (parent child : node) : JS unit :=
  let* s := get in
  if contains (elements (window s)) child (Elem parent)
  then throw HierarchyRequestError
  else modify (on_elements (alter (set_parentNode (Some parent)) child)).

(** [parent.removeChild(child)], called with [parent = child.parentNode]. *)
Definition removeChild (parent child : node) : JS unit :=
  modify (on_elements (alter (set_parentNode None) child)).

Definition getAttribute_title (el : node) : JS (option string) :=
  let* s := get in ret (title_attribute (element_at (elements (window s)) el)).

Definition get_parentNode (el : node) : JS (option node) :=
  let* s := get in ret (parentNode (element_at (elements (window s)) el)).

Definition style_display_assign (el : node) (v : string) : JS unit :=
  modify (on_elements (alter (set_style_display v) el)).

(** [el.addEventListener(event, func)]: a listener already registered for
    the same event is not added again. *)
Definition addEventListener (el : node) (event : string) (func : listener) : JS unit :=
  modify (on_elements (alter (fun e =>
    if decide ((event, func) ∈ listeners e) then e
    else set_listeners (listeners e ++ [(event, func)]) e) el)).

Definition removeEventListener (el : node) (event : string) (func : listener) : JS unit :=
  modify (on_elements (alter (fun e =>
    set_listeners (filter (fun l => l ≠ (event, func)) (listeners e)) e) el)).

(** [document.querySelector(query)] *)
Definition querySelector (query : string) : JS js_ref :=
  let* s := get in
  ret (match list_find (fun q => q.1 = query) (document_queries (window s)) with
       | Some (_, (_, el)) => JElement el
       | None => JNull
       end).

(** [document.body.contains(el)] *)
Definition body_contains (el : ref) : JS bool :=
  let* s := get in
  ret (contains (elements (window s)) (document_body (window s)) el).

(** A new function object. *)
Definition fresh_function : JS nat :=
  let* s := get in
  modify (on_window (fun w => set_functions (S (functions w)) w));;
  ret (functions (window s)).

(** ** The positioning engine *)

(** Modelled from the spec: [new Popper(reference, floating, options)]
    of the missing [../popper/index.js] yields a new instance. *)
Definition new_Popper (ref floating : node) (o : PopperOptions) : JS nat :=
  let* s := get in
  modify (on_window (fun w =>
    set_poppers (poppers w ++ [mkPopper ref floating o 0 false]) w));;
  ret (length (poppers (window s))).

(** Modelled from the spec: [instance.update()] of the missing
    [../popper/index.js]; the instance counts the request. *)
Definition popper_update (p : nat) : JS unit :=
  modify (on_window (fun w => set_poppers (alter (fun i =>
    mkPopper (popper_reference i) (popper_floating i) (popper_options i)
             (S (popper_updates i)) (popper_destroyed i)) p (poppers w)) w)).

(** Modelled from the spec: [instance.destroy()] of the missing
    [../popper/index.js]; the instance is marked destroyed. *)
Definition popper_destroy (p : nat) : JS unit :=
  modify (on_window (fun w => set_poppers (alter (fun i =>
    mkPopper (popper_reference i) (popper_floating i) (popper_options i)
             (popper_updates i) true) p (poppers w)) w)).

(** The conversion of a number to the IDL type [long], which is the type
    of the delay of [window.setTimeout]: modulo 2^32, into the range from
    -2^31 to 2^31 - 1. *)
Definition to_long (z : Z) : Z :=
  let m := (z mod 2 ^ 32)%Z in
  if decide (m < 2 ^ 31)%Z then m else (m - 2 ^ 32)%Z.

(** [window.setTimeout(callback, delay)]: the delay is converted to a
    [long]; a delay that is not a number counts as 0, and so does a
    negative one. *)
Definition timeout_ms (d : delay_val) : Z :=
  match d with
  | DelayNumber ms => Z.max 0 (to_long ms)
  | DelayObject _ _ => 0
  end.

Definition setTimeout (callback : timer_callback) (d : delay_val) : JS unit :=
  modify (on_window (fun w => set_timers (timers w ++ [(timeout_ms d, callback)]) w)).

(** ** The class *)

Definition get_this : JS Tooltip := let* s := get in ret (this s).

(** [a || b] on references: an element is truthy, [null] and [undefined]
    are not. *)
Definition ref_or (a b : ref) : ref :=
  match a with
  | Elem _ => a
  | _ => b
  end.

(** [tooltipGenerator.innerHTML = template], then [childNodes[0]] and
    [querySelector(this.innerSelector)].  The parser creates one element
    for each node of the markup.  The store keeps the parent of an
    element and no order among the children of a node: the numbers of the
    new elements are names, given to the wrapper, the inner node and the
    arrow node in this order. *)
Definition assign_innerHTML (generator : node) (tpl : template_val) : JS (ref * ref) :=
  match tpl with
  | EmptyMarkup => ret (Undefined, Null)
  | WrapperOnly =>
      let* wrapper := createElement in
      modify (on_elements (alter (set_parentNode (Some generator)) wrapper));;
      ret (Elem wrapper, Null)
  | WrapperWithInner =>
      let* wrapper := createElement in
      modify (on_elements (alter (set_parentNode (Some generator)) wrapper));;
      let* inner := createElement in
      modify (on_elements (alter (set_parentNode (Some wrapper)) inner));;
      let* arrow := createElement in
      modify (on_elements (alter (set_parentNode (Some wrapper)) arrow));;
      ret (Elem wrapper, Elem inner)
  end.

(** [titleNode.innerHTML = text] or [titleNode.innerText = text] *)
Definition assign_content (titleNode : ref) (allowHtml : bool) (text : string) : JS unit :=
  match titleNode with
  | Elem tn =>
      modify (on_elements (alter
        (set_inner (if allowHtml then InnerHTML text else InnerText text)) tn))
  | _ => throw TypeError
  end.

Definition _create (reference : node) (template : template_val) (title : title_val)
    (allowHtml : bool) : JS ref :=
  let* tooltipGenerator := createElement in
  let* parsed := assign_innerHTML tooltipGenerator template in
  let tooltipNode := parsed.1 in
  let titleNode := parsed.2 in
  match title with
  | TitleElement el =>
      (* title.nodeType === 1 *)
      (if allowHtml
       then match titleNode with
            | Elem tn => appendChild tn el
            | _ => throw TypeError
            end
       else ret tt)
  | TitleFunction f =>
      let titleText := f reference in
      assign_content titleNode allowHtml titleText
  | TitleString text =>
      assign_content titleNode allowHtml text
  | TitleAbsent =>
      (* reading [nodeType] of [undefined] *)
      throw TypeError
  end;;
  ret tooltipNode.

(** [container.appendChild(tooltipNode)] *)
Definition _append (tooltipNode : ref) (container : js_ref) : JS unit :=
  match container with
  | JElement c =>
      match tooltipNode with
      | Elem n => appendChild c n
      | _ => throw TypeError
      end
  | JString _ => throw TypeError
  | JNull => throw TypeError
  end.

(** [reference.getAttribute('title') || options.title] *)
Definition resolve_title (attribute : option string) (configured : title_val) : title_val :=
  match attribute with
  | Some s => if decide (s = "") then configured else TitleString s
  | None => configured
  end.

(** [!title] *)
Definition title_falsy (t : title_val) : bool :=
  match t with
  | TitleString s => bool_decide (s = "")
  | TitleAbsent => true
  | _ => false
  end.

Definition _show (reference : node) (options : Options) : JS returned :=
  let* t := get_this in
  if _isOpen t then ret ReturnsThis
  else
    modify (on_this (set_isOpen true));;
    match _tooltipNode t with
    | Elem n =>
        style_display_assign n "";;
        match popperInstance t with
        | Some p => popper_update p
        | None => throw TypeError
        end;;
        ret ReturnsThis
    | _ =>
        let* attribute := getAttribute_title reference in
        let title := resolve_title attribute (title options) in
        if title_falsy title then ret ReturnsThis
        else
          let* tooltipNode := _create reference (template options) title (html options) in
          let* container :=
            match container options with
            | ContainerFalse =>
                let* p := get_parentNode reference in
                ret (match p with Some c => JElement c | None => JNull end)
            | ContainerElement c => ret (JElement c)
            | ContainerSelector q => ret (JString q)
            end in
          _append tooltipNode container;;
          let popperOptions :=
            mkPopperOptions (placement options) arrowSelector (boundariesElement options) in
          let* p :=
            match tooltipNode with
            | Elem n => new_Popper reference n popperOptions
            | _ => throw TypeError
            end in
          modify (on_this (set_popperInstance (Some p)));;
          modify (on_this (set_tooltipNode tooltipNode));;
          ret ReturnsThis
    end.

Definition _hide : JS returned :=
  let* t := get_this in
  if negb (_isOpen t) then ret ReturnsThis
  else
    modify (on_this (set_isOpen false));;
    match _tooltipNode t with
    | Elem n => style_display_assign n "none"
    | _ => throw TypeError
    end;;
    ret ReturnsThis.

(** [this._events.forEach(({func, event}) => ...)] of [_dispose] *)
Fixpoint remove_recorded (n : node) (events : list (string * listener)) : JS unit :=
  match events with
  | [] => ret tt
  | (event, func) :: rest => removeEventListener n event func;; remove_recorded n rest
  end.

Definition _dispose : JS returned :=
  let* t := get_this in
  match _tooltipNode t with
  | Elem n =>
      _hide;;
      match popperInstance t with
      | Some p => popper_destroy p
      | None => throw TypeError
      end;;
      remove_recorded n (_events t);;
      modify (on_this (set_events []));;
      let* parent := get_parentNode n in
      match parent with
      | Some c => removeChild c n
      | None => throw TypeError
      end;;
      modify (on_this (set_tooltipNode Null));;
      ret ReturnsThis
  | _ => ret ReturnsThis
  end.

(** No method of the class calls [_findContainer]. *)
Definition _findContainer (container : container_val) : JS js_ref :=
  match container with
  | ContainerSelector q => querySelector q
  | ContainerFalse => let* s := get in ret (JElement (document_body (window s)))
  | ContainerElement c => ret (JElement c)
  end.

(** Public methods. *)
Definition show : JS returned :=
  let* t := get_this in _show (reference t) (options t).
Definition hide : JS returned := _hide.
Definition dispose : JS returned := _dispose.
Definition toggle : JS returned :=
  let* t := get_this in
  if _isOpen t then hide else show.

(** ** Triggers and scheduling *)

(** [(delay && delay.show) || delay || 0]: for a number the first operand
    is falsy, for an object it is the [show] field; a falsy field leaves
    the object itself as the value. *)
Definition computedDelay_show (d : delay_val) : delay_val :=
  match d with
  | DelayNumber ms => if decide (ms = 0%Z) then DelayNumber 0 else DelayNumber ms
  | DelayObject show _ => if decide (show = 0%Z) then d else DelayNumber show
  end.

(** [(delay && delay.hide) || delay || 0] *)
Definition computedDelay_hide (d : delay_val) : delay_val :=
  match d with
  | DelayNumber ms => if decide (ms = 0%Z) then DelayNumber 0 else DelayNumber ms
  | DelayObject _ hide => if decide (hide = 0%Z) then d else DelayNumber hide
  end.

Definition _scheduleShow (reference : node) (delay : delay_val) (options : Options) : JS unit :=
  let computedDelay := computedDelay_show delay in
  setTimeout ShowTimer computedDelay.

Definition _scheduleHide (reference : node) (delay : delay_val) (options : Options)
    (evt : Event) : JS unit :=
  let computedDelay := computedDelay_hide delay in
  setTimeout (HideTimer evt) computedDelay.

(** [a === b || b.contains(a)] *)
Definition _isElOrChildOfEl (a b : ref) : JS bool :=
  if decide (a = b) then ret true
  else match b with
       | Elem el => let* s := get in ret (contains (elements (window s)) el a)
       | _ => throw TypeError
       end.

Definition _setTooltipNodeEvent (evt : Event) (reference : node) (delay : delay_val)
    (options : Options) : JS bool :=
  let relatedreference := ref_or (relatedreference evt) (toElement evt) in
  let* id := fresh_function in
  let callback := TransferCallback id evt in
  let* t := get_this in
  let* inside := _isElOrChildOfEl relatedreference (_tooltipNode t) in
  if inside then
    match _tooltipNode t with
    | Elem n => addEventListener n (type evt) callback
    | _ => throw TypeError
    end;;
    ret true
  else ret false.

(** The body of the arrow function [_scheduleHide] arms. *)
Definition hide_timer_body (reference : node) (delay : delay_val) (options : Options)
    (evt : Event) : JS unit :=
  let* t := get_this in
  if negb (_isOpen t) then ret tt
  else
    let* attached := body_contains (_tooltipNode t) in
    if negb attached then ret tt
    else
      let* isSet :=
        if decide (type evt = "mouseleave")
        then _setTooltipNodeEvent evt reference delay options
        else ret false in
      if isSet then ret tt
      else _hide;; ret tt.

(** The body of [callback] in [_setTooltipNodeEvent], called with [evt2];
    [self] is the function object itself. *)
Definition transfer_callback_body (self : listener) (evt : Event) (reference : node)
    (options : Options) (evt2 : Event) : JS unit :=
  let relatedreference2 := ref_or (relatedreference evt2) (toElement evt2) in
  let* t := get_this in
  match _tooltipNode t with
  | Elem n => removeEventListener n (type evt) self
  | _ => throw TypeError
  end;;
  let* inside := _isElOrChildOfEl relatedreference2 (Elem reference) in
  if negb inside then _scheduleHide reference (delay options) options evt2
  else ret tt.

(** The switch statements of [_setEventListeners]; [None] is the
    [undefined] of the default case. *)
Definition direct_event (event : string) : option string :=
  if decide (event = "hover") then Some "mouseenter"
  else if decide (event = "focus") then Some "focus"
  else if decide (event = "click") then Some "click"
  else None.

Definition opposite_event (event : string) : option string :=
  if decide (event = "hover") then Some "mouseleave"
  else if decide (event = "focus") then Some "blur"
  else if decide (event = "click") then Some "click"
  else None.

(** An event name that is [undefined] registers as the string. *)
Definition event_name (e : option string) : string := default "undefined" e.

Fixpoint listen_direct (reference : node) (events : list (option string)) : JS unit :=
  match events with
  | [] => ret tt
  | e :: rest =>
      let event := event_name e in
      let* id := fresh_function in
      let func := DirectHandler id in
      modify (on_this (fun t => set_events (_events t ++ [(event, func)]) t));;
      addEventListener reference event func;;
      listen_direct reference rest
  end.

Fixpoint listen_opposite (reference : node) (events : list string) : JS unit :=
  match events with
  | [] => ret tt
  | event :: rest =>
      let* id := fresh_function in
      let func := OppositeHandler id in
      modify (on_this (fun t => set_events (_events t ++ [(event, func)]) t));;
      addEventListener reference event func;;
      listen_opposite reference rest
  end.

Definition _setEventListeners (reference : node) (events : list string) (options : Options)
    : JS unit :=
  let directEvents := map direct_event events in
  (* [.filter(event => !!event)]: the empty string is falsy as well *)
  let oppositeEvents :=
    omap (fun e => match opposite_event e with
                   | Some name => if decide (name = "") then None else Some name
                   | None => None
                   end) events in
  listen_direct reference directEvents;;
  listen_opposite reference oppositeEvents.

(** [s.split(' ')] *)
Fixpoint split_spaces (s : string) : list string :=
  match s with
  | EmptyString => [""]
  | String c rest =>
      if decide (c = " "%char) then "" :: split_spaces rest
      else match split_spaces rest with
           | word :: words => String c word :: words
           | [] => [String c ""]
           end
  end.

Definition trigger_events (t : trigger_val) : list string :=
  match t with
  | TriggerString s =>
      filter (fun trigger => trigger ∈ ["click"; "hover"; "focus"]) (split_spaces s)
  | TriggerOther => []
  end.

(** [new Tooltip(reference, options)] in a window: the field initialisers,
    then the constructor body.  [reference] is an element (a jQuery wrapper
    is unwrapped by the caller of the model). *)
Definition constructor (user : UserOptions) : JS unit :=
  let* t := get_this in
  let reference := reference t in
  let options := assign_options DEFAULT_OPTIONS user in
  modify (on_this (fun t =>
    mkTooltip reference options (_isOpen t) (_tooltipNode t) (popperInstance t) (_events t)));;
  let events := trigger_events (trigger options) in
  modify (on_this (set_isOpen false));;
  _setEventListeners reference events options.

Definition new_Tooltip (reference : node) (user : UserOptions) (w : Window) : state :=
  (constructor user
     (mkState (mkTooltip reference DEFAULT_OPTIONS false Undefined None []) w)).2.

(** ** Running listeners and timers *)

(** A listener called with an event; the event comes back as the listener
    left it.  The closures read the [reference] and [options] they captured
    in the constructor, which are the fields of [this]. *)
Definition call_listener (l : listener) (evt : Event) : JS Event :=
  let* t := get_this in
  match l with
  | DirectHandler _ =>
      if _isOpen t then ret evt
      else
        let evt := set_usedByTooltip true evt in
        _scheduleShow (reference t) (delay (options t)) (options t);;
        ret evt
  | OppositeHandler _ =>
      if usedByTooltip evt then ret evt
      else
        _scheduleHide (reference t) (delay (options t)) (options t) evt;;
        ret evt
  | TransferCallback _ evt1 =>
      transfer_callback_body l evt1 (reference t) (options t) evt;;
      ret evt
  end.

Definition call_timer (c : timer_callback) : JS unit :=
  let* t := get_this in
  match c with
  | ShowTimer => _show (reference t) (options t);; ret tt
  | HideTimer evt => hide_timer_body (reference t) (delay (options t)) (options t) evt
  end.

(** An exception that escapes a listener or a timer callback is reported
    by the browser and goes no further. *)
Definition reported {A} (m : JS A) (otherwise : A) : JS A :=
  fun s => match m s with
           | (Normal a, s') => (Normal a, s')
           | (Throw _, s') => (Normal otherwise, s')
           end.

(** The listeners of [target] for the type of [evt], in the order they
    were added; one that an earlier listener removed is skipped.  No
    listener of the source changes the event before it throws. *)
Fixpoint invoke_listeners (target : node) (ls : list (string * listener)) (evt : Event)
    : JS unit :=
  match ls with
  | [] => ret tt
  | l :: rest =>
      let* s := get in
      let* evt' :=
        if decide (l ∈ listeners (element_at (elements (window s)) target))
        then reported (call_listener l.2 evt) evt
        else ret evt in
      invoke_listeners target rest evt'
  end.

Definition dispatchEvent (target : node) (evt : Event) : JS unit :=
  let* s := get in
  let registered := listeners (element_at (elements (window s)) target) in
  invoke_listeners target (filter (fun l => l.1 = type evt) registered) evt.

(** The [i]-th armed timer fires. *)
Definition fire_timer (i : nat) : JS unit :=
  let* s := get in
  match timers (window s) !! i with
  | Some (_, callback) =>
      modify (on_window (fun w => set_timers (delete i (timers w)) w));;
      reported (call_timer callback) tt
  | None => ret tt
  end.

(** ** What can happen to a controller *)

Inductive action :=
| CallShow
| CallHide
| CallToggle
| CallDispose
| Dispatch (target : node) (evt : Event)
| Fire (i : nat).

Definition perform (a : action) : JS unit :=
  match a with
  | CallShow => show;; ret tt
  | CallHide => hide;; ret tt
  | CallToggle => toggle;; ret tt
  | CallDispose => dispose;; ret tt
  | Dispatch target evt => dispatchEvent target evt
  | Fire i => fire_timer i
  end.

(** The state after the actions, whether or not one of them threw. *)
Definition after (actions : list action) (s : state) : state :=
  foldl (fun s a => (perform a s).2) s actions.

(** * Specification vocabulary *)

(** [wp m Q s]: running [m] in [s] ends, normally or not, in a completion
    and a state that satisfy [Q]. *)
Definition wp {A} (m : JS A) (Q : completion A -> state -> Prop) (s : state) : Prop :=
  Q (m s).1 (m s).2.

(** The floating node is present. *)
Definition node_present (s : state) : Prop :=
  exists n, _tooltipNode (this s) = Elem n.

(** The field [popperInstance] holds a handle. *)
Definition handle_present (s : state) : Prop :=
  is_Some (popperInstance (this s)).

(** The instance [p] exists and was not destroyed. *)
Definition live (ps : list PopperInstance) (p : nat) : bool :=
  match ps !! p with
  | Some i => negb (popper_destroyed i)
  | None => false
  end.

(** The field [popperInstance] holds a handle that was not destroyed. *)
Definition handle_live (s : state) : bool :=
  match popperInstance (this s) with
  | Some p => live (poppers (window s)) p
  | None => false
  end.

(** The chain of parents above [b] ends after at most [k] steps. *)
Fixpoint root_within (k : nat) (els : list Element) (b : node) : bool :=
  match parentNode (element_at els b) with
  | None => true
  | Some p =>
      match k with
      | O => false
      | S k' => root_within k' els p
      end
  end.

(** The listeners registered on an element. *)
Definition listeners_of (s : state) (el : node) : list (string * listener) :=
  listeners (element_at (elements (window s)) el).

Definition parent_of (s : state) (el : node) : option node :=
  parentNode (element_at (elements (window s)) el).

(** What holds of a controller between two calls: a floating node is
    attached to a parent, and it is there exactly when the handle is live. *)
Record consistent (s : state) : Prop := mkConsistent {
  node_attached : forall n, _tooltipNode (this s) = Elem n -> is_Some (parent_of s n);
  node_handle : node_present s <-> handle_live s = true
}.

(** The reference is an element of the page and not the floating node. *)
Record reference_apart (s : state) : Prop := mkApart {
  reference_allocated : reference (this s) < length (elements (window s));
  node_not_reference : _tooltipNode (this s) <> Elem (reference (this s))
}.

(** [benign s s']: from [s] to [s'] the controller kept its reference,
    options, floating node and handle, no instance changed liveness, no
    element was created or moved, and only the floating node may have
    other listeners. *)
Record benign (s s' : state) : Prop := mkBenign {
  benign_reference : reference (this s') = reference (this s);
  benign_options : options (this s') = options (this s);
  benign_node : _tooltipNode (this s') = _tooltipNode (this s);
  benign_handle : popperInstance (this s') = popperInstance (this s);
  benign_live : forall p, live (poppers (window s')) p = live (poppers (window s)) p;
  benign_length : length (elements (window s')) = length (elements (window s));
  benign_parent : forall m, parent_of s' m = parent_of s m;
  benign_listeners : forall m, _tooltipNode (this s) <> Elem m ->
                               listeners_of s' m = listeners_of s m
}.

(** [dom_grows s s']: from [s] to [s'] only elements were created, moved
    or filled; the controller, the instances and all listeners are the
    same. *)
Record dom_grows (s s' : state) : Prop := mkGrows {
  grows_this : this s' = this s;
  grows_poppers : poppers (window s') = poppers (window s);
  grows_length : length (elements (window s)) <= length (elements (window s'));
  grows_listeners : forall m, listeners_of s' m = listeners_of s m
}.

(** The state [x3] in which the handle of [x] is destroyed and the node is
    still recorded. *)
Record handle_destroyed (x x3 : state) : Prop := mkDestroyed {
  destroyed_reference : reference (this x3) = reference (this x);
  destroyed_options : options (this x3) = options (this x);
  destroyed_node : _tooltipNode (this x3) = _tooltipNode (this x);
  destroyed_handle : popperInstance (this x3) = popperInstance (this x);
  destroyed_dead : handle_live x3 = false;
  destroyed_length : length (elements (window x3)) = length (elements (window x));
  destroyed_parent : forall m, parent_of x3 m = parent_of x m;
  destroyed_listeners : forall m, _tooltipNode (this x) <> Elem m ->
                                  listeners_of x3 m = listeners_of x m
}.

(** What the constructor establishes while it binds the triggers of a
    controller for [r] in a page of [k] elements. *)
Record binding (r : node) (k : nat) (s : state) : Prop := mkBinding {
  binding_reference : reference (this s) = r;
  binding_closed : _isOpen (this s) = false;
  binding_node : _tooltipNode (this s) = Undefined;
  binding_handle : popperInstance (this s) = None;
  binding_length : length (elements (window s)) = k;
  binding_recorded : r < k -> forall l, l ∈ _events (this s) -> l ∈ listeners_of s r
}.

(** [evolves s s']: what every call and every callback guarantees. *)
Record evolves (s s' : state) : Prop := mkEvolves {
  evolves_reference : reference (this s') = reference (this s);
  evolves_options : options (this s') = options (this s);
  evolves_consistent : consistent s -> consistent s';
  evolves_apart : reference_apart s ->
                  reference_apart s' /\
                  listeners_of s' (reference (this s)) = listeners_of s (reference (this s))
}.

(** ** A page to run the class on

    [<body><div id="box"><button title="Hi"></button></div></body>]:
    element 0 is the body, 1 the div, 2 the button. *)
Definition page : Window :=
  mkWindow [ mkElement None None "" NoContent [];
             mkElement (Some 0) None "" NoContent [];
             mkElement (Some 1) (Some "Hi") "" NoContent [] ]
           0 [("#box", 1)] [] [] 0.

(** The same page with no [title] attribute on the button. *)
Definition untitled_page : Window :=
  mkWindow [ mkElement None None "" NoContent [];
             mkElement (Some 0) None "" NoContent [];
             mkElement (Some 1) None "" NoContent [] ]
           0 [("#box", 1)] [] [] 0.

Definition no_options : UserOptions :=
  mkUserOptions None None None None None None None None None.

(** [{ container: '#box' }] *)
Definition box_container : UserOptions :=
  mkUserOptions (Some (ContainerSelector "#box")) None None None None None None None None.

(** [{ container: document.body }] *)
Definition body_container : UserOptions :=
  mkUserOptions (Some (ContainerElement 0)) None None None None None None None None.

(** [{ trigger: 'click', delay: 0 }] *)
Definition click_trigger : UserOptions :=
  mkUserOptions None (Some (DelayNumber 0)) None None None None
                (Some (TriggerString "click")) None None.

(** A click on the button. *)
Definition click : Event := mkEvent "click" Undefined Undefined Undefined false.

(** [{ title: 'Default' }] *)
Definition default_title : UserOptions :=
  mkUserOptions None None None None (Some (TitleString "Default")) None None None None.

(** The tooltip of the button, open: elements 3, 4, 5 and 6 are the
    generator, the floating node, its inner node and its arrow node. *)
Definition open_tooltip : state :=
  after [CallShow] (new_Tooltip 2 no_options page).

(** The pointer leaves the button for the inner node of the tooltip, as a
    browser without [toElement] reports it. *)
Definition leave_to_tooltip : Event :=
  mkEvent "mouseleave" Undefined Undefined (Elem 5) false.

(** The same, from a browser that sets [toElement] too. *)
Definition leave_to_tooltip_legacy : Event :=
  mkEvent "mouseleave" Undefined (Elem 5) (Elem 5) false.

(** The pointer leaves the tooltip and is back on the button. *)
Definition leave_to_button : Event :=
  mkEvent "mouseleave" Undefined (Elem 2) (Elem 2) false.

(** The pointer leaves the tooltip for the body. *)
Definition leave_to_body : Event :=
  mkEvent "mouseleave" Undefined (Elem 0) (Elem 0) false.

(** ** Vocabulary for frames and for the visible state *)

(** [respects R m]: whatever state [m] runs in, the state it ends in,
    normally or not, is related to it by [R]. *)
Definition respects (R : state -> state -> Prop) {A} (m : JS A) : Prop :=
  forall s, R s (m s).2.

(** [style.display] of an element. *)
Definition display_of (s : state) (el : node) : string :=
  style_display (element_at (elements (window s)) el).

(** [calm s s']: the controller is as open as it was, no floating node
    appeared, and no element changed its [display]. *)
Record calm (s s' : state) : Prop := mkCalm {
  calm_open : _isOpen (this s') = _isOpen (this s);
  calm_node : forall n, _tooltipNode (this s') = Elem n -> _tooltipNode (this s) = Elem n;
  calm_display : forall m, display_of s' m = display_of s m
}.

(** [passive s s']: no listener was registered, removed or recorded, no
    timer armed and no function created. *)
Record passive (s s' : state) : Prop := mkPassive {
  passive_reference : reference (this s') = reference (this s);
  passive_options : options (this s') = options (this s);
  passive_events : _events (this s') = _events (this s);
  passive_timers : timers (window s') = timers (window s);
  passive_functions : functions (window s') = functions (window s);
  passive_listeners : forall m, listeners_of s' m = listeners_of s m
}.

(** A floating node is displayed exactly when the controller is open. *)
Definition shown_iff_open (s : state) : Prop :=
  forall n, _tooltipNode (this s) = Elem n ->
            display_of s n = if _isOpen (this s) then "" else "none".


(** The state in which [_show] returns after it created the floating node
    [n]: [x] is the state in which the node was appended. *)
Definition created_state (x : state) (r n : node) (po : PopperOptions) : state :=
  on_this (set_tooltipNode (Elem n))
    (on_this (set_popperInstance (Some (length (poppers (window x)))))
       (on_window (fun w => set_poppers (poppers w ++ [mkPopper r n po 0 false]) w) x)).

(** What holds of a controller between two calls, with the visible state. *)
Definition steady (s : state) : Prop := consistent s /\ shown_iff_open s.

Definition keeps_steady (s s' : state) : Prop := steady s -> steady s'.

(** [wiring s s']: only listeners, their records and the count of
    functions may differ. *)
Record wiring (s s' : state) : Prop := mkWiring {
  wiring_reference : reference (this s') = reference (this s);
  wiring_options : options (this s') = options (this s);
  wiring_open : _isOpen (this s') = _isOpen (this s);
  wiring_node : _tooltipNode (this s') = _tooltipNode (this s);
  wiring_handle : popperInstance (this s') = popperInstance (this s);
  wiring_timers : timers (window s') = timers (window s);
  wiring_poppers : poppers (window s') = poppers (window s);
  wiring_length : length (elements (window s')) = length (elements (window s));
  wiring_parents : forall m, parent_of s' m = parent_of s m
}.

(** The names of the events that the class listens to. *)
Definition listened_events : list string :=
  ["mouseenter"; "focus"; "click"; "mouseleave"; "blur"].

(** [{ title: document.body }] *)
Definition element_title : UserOptions :=
  mkUserOptions None None None None (Some (TitleElement 0)) None None None None.

(** [{ template: '<div class="tooltip"></div>' }]: a wrapper, no inner
    node. *)
Definition bare_template : UserOptions :=
  mkUserOptions None None None None None (Some WrapperOnly) None None None.


(** The action is a call of [dispose()]. *)
Definition disposes (a : action) : bool :=
  match a with
  | CallDispose => true
  | _ => false
  end.

(** * Reasoning about computations *)

Section WeakestPre.
Context {A B : Type}.

Lemma wp_ret (a : A) Q s : Q (Normal a) s -> wp (ret a) Q s.
Proof. intros H. exact H. Qed.

Lemma wp_throw e (Q : completion A -> state -> Prop) s :
  Q (Throw e) s -> wp (throw e) Q s.
Proof. intros H. exact H. Qed.

Lemma wp_get Q s : Q (Normal s) s -> wp get Q s.
Proof. intros H. exact H. Qed.

Lemma wp_get_this Q s : Q (Normal (this s)) s -> wp get_this Q s.
Proof. intros H. exact H. Qed.

Lemma wp_modify f Q s : Q (Normal tt) (f s) -> wp (modify f) Q s.
Proof. intros H. exact H. Qed.

Lemma wp_bind (m : JS A) (f : A -> JS B) Q s :
  wp m (fun r s' => match r with
                    | Normal a => wp (f a) Q s'
                    | Throw e => Q (Throw e) s'
                    end) s ->
  wp (bind m f) Q s.
Proof. unfold wp, bind. by destruct (m s) as [[a|e] s']. Qed.

Lemma wp_mono (m : JS A) (Q Q' : completion A -> state -> Prop) s :
  wp m Q s -> (forall r s', Q r s' -> Q' r s') -> wp m Q' s.
Proof. unfold wp. auto. Qed.

Lemma wp_reported (m : JS A) (otherwise : A) Q s :
  wp m (fun r s' => match r with
                    | Normal a => Q (Normal a) s'
                    | Throw _ => Q (Normal otherwise) s'
                    end) s ->
  wp (reported m otherwise) Q s.
Proof. unfold wp, reported. by destruct (m s) as [[a|e] s']. Qed.

End WeakestPre.

(** One step through the structure of a computation. *)
Ltac wp_step :=
  lazymatch goal with
  | |- wp (bind _ _) _ _ => apply wp_bind
  | |- wp (ret _) _ _ => apply wp_ret
  | |- wp (throw _) _ _ => apply wp_throw
  | |- wp get _ _ => apply wp_get
  | |- wp get_this _ _ => apply wp_get_this
  | |- wp (modify _) _ _ => apply wp_modify
  | |- wp (reported _ _) _ _ => apply wp_reported
  | |- wp (if ?b then _ else _) _ _ => destruct b eqn:?
  | |- wp (match ?x with _ => _ end) _ _ => destruct x eqn:?
  | |- wp (let _ := _ in _) _ _ => cbv zeta
  end.

(** ** The element store *)

Lemma element_at_alter_ne (f : Element -> Element) els n m :
  n ≠ m -> element_at (alter f n els) m = element_at els m.
Proof. intros. unfold element_at. by rewrite list_lookup_alter_ne. Qed.

Lemma element_at_alter_eq (f : Element -> Element) els n :
  n < length els -> element_at (alter f n els) n = f (element_at els n).
Proof.
  intros Hn. unfold element_at. rewrite list_lookup_alter_eq.
  destruct (els !! n) eqn:E; [done|]. apply lookup_ge_None in E. lia.
Qed.

(** A field that [f] leaves alone reads the same after [alter f]. *)
Lemma element_at_alter_field {X} (field : Element -> X) (f : Element -> Element) els n m :
  (forall e, field (f e) = field e) ->
  field (element_at (alter f n els) m) = field (element_at els m).
Proof.
  intros Hf. unfold element_at. destruct (decide (n = m)) as [->|Hne].
  - rewrite list_lookup_alter_eq. destruct (els !! m); simpl; auto.
  - by rewrite list_lookup_alter_ne.
Qed.

(** A reference past the end reads as the blank element, and so does the
    element [createElement] adds. *)
Lemma element_at_snoc_blank els m :
  element_at (els ++ [blank_element]) m = element_at els m.
Proof.
  unfold element_at. destruct (decide (m < length els)).
  - by rewrite lookup_app_l.
  - rewrite lookup_app_r by lia. rewrite (lookup_ge_None_2 els) by lia.
    by destruct (m - length els) as [|[|?]].
Qed.

(** The walk of [contains] does not depend on its bound once the chain of
    parents ends within it. *)
Lemma is_ancestor_fuel els a : forall k b fuel,
  root_within k els b = true -> k <= fuel ->
  is_ancestor fuel els a b = is_ancestor k els a b.
Proof.
  induction k as [|k IH]; intros b fuel Hroot Hle; simpl in Hroot.
  - destruct (parentNode (element_at els b)) as [p|] eqn:Hp; [done|].
    destruct fuel; simpl; rewrite ?Hp; done.
  - destruct fuel as [|fuel]; [lia|]. simpl.
    case_decide; [done|].
    destruct (parentNode (element_at els b)) as [p|]; [|done].
    apply IH; [done|lia].
Qed.

(** A write that keeps the parent of an element does not change what
    contains what. *)
Lemma contains_alter (f : Element -> Element) els n a b :
  (forall e, parentNode (f e) = parentNode e) ->
  contains (alter f n els) a b = contains els a b.
Proof.
  intros Hf. unfold contains. destruct b as [| |b]; [done|done|].
  rewrite length_alter. generalize (length els). intros fuel. revert b.
  induction fuel as [|fuel IH]; intros b; simpl; [done|].
  case_decide; [done|].
  rewrite (element_at_alter_field parentNode) by done.
  destruct (parentNode _); [apply IH|done].
Qed.

(** ** Steps that leave the controller's resources alone *)

Lemma benign_refl s : benign s s.
Proof. by constructor. Qed.

Lemma benign_trans s x s' : benign s x -> benign x s' -> benign s s'.
Proof.
  intros [] []. constructor; try congruence.
  intros m Hm. rewrite benign_listeners1 by congruence. by apply benign_listeners0.
Qed.

Lemma benign_isOpen s x b : benign s x -> benign s (on_this (set_isOpen b) x).
Proof. intros []. by constructor. Qed.

Lemma benign_timers s x g :
  benign s x -> benign s (on_window (fun w => set_timers (g w) w) x).
Proof. intros []. by constructor. Qed.

Lemma benign_functions s x g :
  benign s x -> benign s (on_window (fun w => set_functions (g w) w) x).
Proof. intros []. by constructor. Qed.

Lemma live_alter f ps p q :
  (forall i, popper_destroyed (f i) = popper_destroyed i) ->
  live (alter f p ps) q = live ps q.
Proof.
  intros Hf. unfold live. destruct (decide (p = q)) as [->|Hne].
  - rewrite list_lookup_alter_eq. destruct (ps !! q); simpl; by rewrite ?Hf.
  - by rewrite list_lookup_alter_ne.
Qed.

Lemma benign_poppers s x f p :
  (forall i, popper_destroyed (f i) = popper_destroyed i) ->
  benign s x ->
  benign s (on_window (fun w => set_poppers (alter f p (poppers w)) w) x).
Proof.
  intros Hf []. constructor; try done.
  intros q. simpl. rewrite live_alter by done. apply benign_live0.
Qed.

(** A write to an element that keeps its parent and its listeners. *)
Lemma benign_alter_quiet s x f n :
  (forall e, parentNode (f e) = parentNode e) ->
  (forall e, listeners (f e) = listeners e) ->
  benign s x -> benign s (on_elements (alter f n) x).
Proof.
  intros Hp Hl []. constructor; try done.
  - simpl. by rewrite length_alter.
  - intros m. unfold parent_of. simpl.
    rewrite (element_at_alter_field parentNode) by done. apply benign_parent0.
  - intros m Hm. unfold listeners_of. simpl.
    rewrite (element_at_alter_field listeners) by done. by apply benign_listeners0.
Qed.

(** A write to the floating node that keeps its parent. *)
Lemma benign_alter_node s x f n :
  (forall e, parentNode (f e) = parentNode e) ->
  _tooltipNode (this s) = Elem n ->
  benign s x -> benign s (on_elements (alter f n) x).
Proof.
  intros Hp Hn []. constructor; try done.
  - simpl. by rewrite length_alter.
  - intros m. unfold parent_of. simpl.
    rewrite (element_at_alter_field parentNode) by done. apply benign_parent0.
  - intros m Hm. unfold listeners_of. simpl.
    rewrite element_at_alter_ne by congruence. by apply benign_listeners0.
Qed.

Create HintDb benign discriminated.
#[export] Hint Resolve benign_refl benign_isOpen benign_timers benign_functions : benign.
#[export] Hint Extern 2 (benign _ (on_window _ _)) =>
  (apply benign_poppers; [done|]) : benign.
#[export] Hint Extern 2 (benign _ (on_elements _ _)) =>
  (apply benign_alter_quiet; [done|done|]) : benign.
#[export] Hint Extern 3 (benign _ (on_elements _ _)) =>
  (apply benign_alter_node; [by intros; repeat case_decide|congruence|]) : benign.

(** The primitives of the window are reads and writes of the state. *)
Ltac wp_prim :=
  unfold style_display_assign, addEventListener, removeEventListener, setTimeout,
    fresh_function, popper_update, popper_destroy, body_contains, getAttribute_title,
    get_parentNode, createElement, removeChild, new_Popper.

(** As many steps as the structure of the computation allows. *)
Ltac wp_steps := repeat (wp_prim; wp_step; cbv beta iota; cbn [fst snd]).

Lemma _hide_benign s x : benign s x -> wp _hide (fun _ s' => benign s s') x.
Proof.
  intros H. unfold _hide. wp_steps; eauto 10 with benign.
Qed.

(** A call of a computation known to be benign, inside another one;
    [s0] is the state the relation starts from. *)
Ltac wp_call L s0 :=
  eapply wp_mono;
  [ apply L with (s := s0); eauto 10 with benign
  | cbv beta; intros [?|?] ? ?; cbv beta iota ].

Lemma _scheduleShow_benign r d o s x :
  benign s x -> wp (_scheduleShow r d o) (fun _ s' => benign s s') x.
Proof. intros H. unfold _scheduleShow. wp_steps; eauto 10 with benign. Qed.

Lemma _scheduleHide_benign r d o e s x :
  benign s x -> wp (_scheduleHide r d o e) (fun _ s' => benign s s') x.
Proof. intros H. unfold _scheduleHide. wp_steps; eauto 10 with benign. Qed.

Lemma _isElOrChildOfEl_pure a b x :
  wp (_isElOrChildOfEl a b) (fun _ s' => s' = x) x.
Proof. unfold _isElOrChildOfEl. wp_steps; done. Qed.

Lemma _setTooltipNodeEvent_benign e r d o s x :
  benign s x -> wp (_setTooltipNodeEvent e r d o) (fun _ s' => benign s s') x.
Proof.
  intros H. unfold _setTooltipNodeEvent. wp_steps.
  eapply wp_mono; [apply _isElOrChildOfEl_pure|].
  cbv beta. intros [inside|?] ? ->; cbv beta iota; [|eauto with benign].
  pose proof (benign_node _ _ H) as Hn. simpl in *.
  wp_steps; eauto 10 with benign.
Qed.

Lemma hide_timer_body_benign r d o e s x :
  benign s x -> wp (hide_timer_body r d o e) (fun _ s' => benign s s') x.
Proof.
  intros H. unfold hide_timer_body. wp_steps; eauto with benign.
  - wp_call _setTooltipNodeEvent_benign s; [|done].
    wp_steps; eauto with benign. wp_call _hide_benign s; wp_steps; done.
  - wp_call _hide_benign s; wp_steps; done.
Qed.

Lemma transfer_callback_body_benign l e r o e2 s x :
  benign s x -> wp (transfer_callback_body l e r o e2) (fun _ s' => benign s s') x.
Proof.
  intros H. unfold transfer_callback_body.
  pose proof (benign_node _ _ H) as Hn.
  wp_steps; eauto with benign.
  eapply wp_mono; [apply _isElOrChildOfEl_pure|].
  cbv beta. intros [inside|?] ? ->; cbv beta iota.
  - wp_steps.
    + wp_call _scheduleHide_benign s; done.
    + apply benign_alter_node; [done|congruence|done].
  - apply benign_alter_node; [done|congruence|done].
Qed.

(** ** Creating the floating node *)

Lemma dom_grows_refl s : dom_grows s s.
Proof. by constructor. Qed.

Lemma dom_grows_trans s x s' : dom_grows s x -> dom_grows x s' -> dom_grows s s'.
Proof.
  intros [] [].
  constructor; [congruence | congruence | lia |].
  intros m. rewrite grows_listeners1. apply grows_listeners0.
Qed.

Lemma dom_grows_create s x :
  dom_grows s x -> dom_grows s (on_elements (fun els => els ++ [blank_element]) x).
Proof.
  intros []. constructor; try done.
  - simpl. rewrite length_app. simpl. lia.
  - intros m. unfold listeners_of. simpl. rewrite element_at_snoc_blank. apply grows_listeners0.
Qed.

Lemma dom_grows_alter s x f n :
  (forall e, listeners (f e) = listeners e) ->
  dom_grows s x -> dom_grows s (on_elements (alter f n) x).
Proof.
  intros Hf []. constructor; try done.
  - simpl. by rewrite length_alter.
  - intros m. unfold listeners_of. simpl.
    rewrite (element_at_alter_field listeners) by done. apply grows_listeners0.
Qed.

Create HintDb grows discriminated.
#[export] Hint Resolve dom_grows_refl dom_grows_create : grows.
#[export] Hint Extern 2 (dom_grows _ (on_elements (alter _ _) _)) =>
  (apply dom_grows_alter; [done|]) : grows.

Lemma assign_innerHTML_spec g tpl s x :
  dom_grows s x ->
  wp (assign_innerHTML g tpl)
     (fun r s' => dom_grows s s' /\
        match r with
        | Normal (wrapper, inner) =>
            (forall n, wrapper = Elem n ->
               length (elements (window x)) <= n < length (elements (window s'))) /\
            (forall n, inner = Elem n -> n < length (elements (window s')))
        | Throw _ => False
        end) x.
Proof.
  intros H. unfold assign_innerHTML. wp_steps; (split; [eauto 14 with grows|]).
  - done.
  - split; [|done]. intros n [= <-]. simpl.
    rewrite length_alter, length_app. simpl. lia.
  - split; intros n [= <-]; simpl;
      repeat (rewrite ?length_alter, ?length_app; simpl length); lia.
Qed.

(** Lengths of stores after writes and creations. *)
Ltac lengths :=
  simpl; repeat (progress (rewrite ?length_alter, ?length_app; simpl length));
  simpl; try lia.

Lemma _create_spec r tpl ttl allowHtml s x :
  dom_grows s x ->
  wp (_create r tpl ttl allowHtml)
     (fun res s' => dom_grows s s' /\
        forall n, res = Normal (Elem n) ->
                  length (elements (window x)) < n < length (elements (window s'))) x.
Proof.
  intros H. unfold _create, assign_innerHTML, assign_content, appendChild.
  wp_steps; simpl in *; simplify_eq;
    (split; [eauto 16 with grows | try done; intros ? [= <-]; lengths]).
Qed.

Lemma _append_spec tn c s x :
  dom_grows s x ->
  wp (_append tn c)
     (fun res s' => dom_grows s s' /\
        length (elements (window s')) = length (elements (window x)) /\
        forall n, res = Normal tt -> tn = Elem n -> n < length (elements (window x)) ->
                  is_Some (parent_of s' n)) x.
Proof.
  intros H. unfold _append, appendChild.
  wp_steps; simpl in *; simplify_eq;
    (split; [eauto 12 with grows | split; [lengths|try done]]).
  intros n _ [= <-] Hn. unfold parent_of. simpl.
  rewrite element_at_alter_eq by done. by eexists.
Qed.

(** ** Every step evolves the controller *)

Lemma evolves_refl s : evolves s s.
Proof. by constructor. Qed.

Lemma evolves_trans s x s' : evolves s x -> evolves x s' -> evolves s s'.
Proof.
  intros [] []. constructor; [congruence | congruence | auto |].
  intros Ha. destruct (evolves_apart0 Ha) as [Hx Hl].
  destruct (evolves_apart1 Hx) as [Hs' Hl']. split; [done|].
  rewrite <- Hl, <- evolves_reference0. done.
Qed.

Lemma benign_evolves s s' : benign s s' -> evolves s s'.
Proof.
  intros []. constructor; try done.
  - intros [Hat Hnh]. constructor.
    + intros n Hn. rewrite benign_parent0. apply Hat. congruence.
    + unfold node_present, handle_live in *.
      rewrite benign_node0, benign_handle0.
      destruct (popperInstance (this s)); [by rewrite benign_live0|done].
  - intros [Hal Hnr]. split.
    + constructor; congruence.
    + by apply benign_listeners0.
Qed.

(** The title was empty, or creating the node threw. *)
Lemma abandoned_evolves x x2 :
  (forall m, _tooltipNode (this x) <> Elem m) ->
  dom_grows (on_this (set_isOpen true) x) x2 ->
  evolves x x2.
Proof.
  intros Hnone [Ht Hp Hlen Hl]. simpl in *.
  constructor; try by rewrite Ht.
  - intros [Hat Hnh]. constructor.
    + intros n Hn. rewrite Ht in Hn. by apply Hnone in Hn.
    + unfold node_present, handle_live in *. rewrite Ht, Hp. simpl. done.
  - intros [Hal Hnr]. split; [|apply Hl].
    constructor; rewrite Ht; simpl; [lia|done].
Qed.

Lemma live_new ps i : popper_destroyed i = false -> live (ps ++ [i]) (length ps) = true.
Proof.
  intros Hi. unfold live. rewrite lookup_app_r by lia.
  rewrite Nat.sub_diag. simpl. by rewrite Hi.
Qed.

(** The node was created, appended and given an instance. *)
Lemma created_evolves x x2 n i :
  (forall m, _tooltipNode (this x) <> Elem m) ->
  dom_grows (on_this (set_isOpen true) x) x2 ->
  length (elements (window x)) < n ->
  is_Some (parent_of x2 n) ->
  popper_destroyed i = false ->
  evolves x
    (on_this (set_tooltipNode (Elem n))
       (on_this (set_popperInstance (Some (length (poppers (window x2)))))
          (on_window (fun w => set_poppers (poppers w ++ [i]) w) x2))).
Proof.
  intros Hnone [Ht Hp Hlen Hl] Hn Hpar Hi. simpl in *.
  constructor; simpl; try by rewrite Ht.
  - intros _. constructor.
    + intros m [= <-]. done.
    + unfold node_present, handle_live. simpl. rewrite live_new by done.
      split; [done|]. by eexists.
  - intros [Hal Hnr]. split; [|apply Hl].
    constructor; simpl; rewrite Ht; simpl; [lia|].
    intros [= ->]. lia.
Qed.

Lemma _show_evolves r o x : wp (_show r o) (fun _ s' => evolves x s') x.
Proof.
  unfold _show. apply wp_bind, wp_get_this. destruct (_isOpen (this x)) eqn:Hopen.
  { apply wp_ret, evolves_refl. }
  apply wp_bind, wp_modify.
  destruct (_tooltipNode (this x)) as [| |n] eqn:Hnode.
  3: { eapply wp_mono with (Q := fun _ s' => benign x s').
       - wp_steps; eauto 10 with benign.
       - intros. by apply benign_evolves. }
  all: assert (Hnone : forall m, _tooltipNode (this x) <> Elem m) by (by rewrite Hnode).
  all: wp_steps; [by apply abandoned_evolves, dom_grows_refl|].
  all: eapply wp_mono; [apply _create_spec, dom_grows_refl|].
  all: cbv beta; intros [tn|?] x2 [Hg Htn]; [|by apply abandoned_evolves].
  all: apply wp_bind.
  all: eapply wp_mono with (Q := fun res s' => s' = x2 /\ exists c, res = Normal c);
    [ wp_steps; eauto | ].
  all: cbv beta; intros ? ? [-> [c ->]].
  all: apply wp_bind; (eapply wp_mono; [apply _append_spec, dom_grows_refl|]).
  all: cbv beta; intros [[]|?] x4 (Hg4 & Hlen4 & Hpar);
    [|by eapply abandoned_evolves, dom_grows_trans; eauto].
  all: destruct tn as [| |n]; wp_steps;
    try by eapply abandoned_evolves, dom_grows_trans; eauto.
  all: destruct (Htn n eq_refl) as [Hlo Hhi]; simpl in *.
  all: apply created_evolves;
    [ done | eapply dom_grows_trans; eauto | done | apply Hpar; [done|done|lia] | done ].
Qed.

(** ** Disposing *)

Lemma remove_recorded_benign n l s x :
  _tooltipNode (this s) = Elem n ->
  benign s x ->
  wp (remove_recorded n l) (fun r s' => r = Normal tt /\ benign s s') x.
Proof.
  intros Hn. revert x. induction l as [|[event func] l IH]; intros x H; simpl.
  - by apply wp_ret.
  - apply wp_bind. unfold removeEventListener at 1. apply wp_modify.
    apply IH. by apply benign_alter_node.
Qed.

Lemma live_destroyed f ps p :
  (forall i, popper_destroyed (f i) = true) -> live (alter f p ps) p = false.
Proof.
  intros Hf. unfold live. rewrite list_lookup_alter_eq.
  destruct (ps !! p); simpl; by rewrite ?Hf.
Qed.

Lemma handle_destroyed_intro x x1 x3 p f :
  (forall i, popper_destroyed (f i) = true) ->
  popperInstance (this x) = Some p ->
  benign x x1 ->
  benign (on_window (fun w => set_poppers (alter f p (poppers w)) w) x1) x3 ->
  handle_destroyed x x3.
Proof.
  intros Hf Hp [] []. simpl in *.
  constructor; [congruence | congruence | congruence | congruence | | congruence | |].
  - unfold handle_live. rewrite benign_handle1, benign_handle0, Hp, benign_live1.
    by apply live_destroyed.
  - intros m. rewrite benign_parent1. apply benign_parent0.
  - intros m Hm. rewrite benign_listeners1 by congruence. by apply benign_listeners0.
Qed.

(** Disposing threw after the handle was destroyed: the node had no
    parent. *)
Lemma orphaned_evolves x x3 n l :
  _tooltipNode (this x) = Elem n ->
  handle_destroyed x x3 ->
  parent_of x3 n = None ->
  evolves x (on_this (set_events l) x3).
Proof.
  intros Hn [] Hpar. constructor; simpl; try done.
  - intros [Hat _]. destruct (Hat n Hn) as [c Hc].
    rewrite destroyed_parent0 in Hpar. congruence.
  - intros [Hal Hnr]. split.
    + constructor; simpl; congruence.
    + by apply destroyed_listeners0.
Qed.

Lemma disposed_evolves x x3 n l :
  _tooltipNode (this x) = Elem n ->
  handle_destroyed x x3 ->
  evolves x
    (on_this (set_tooltipNode Null)
       (on_elements (alter (set_parentNode None) n) (on_this (set_events l) x3))).
Proof.
  intros Hn []. constructor; simpl; try done.
  - intros _. constructor; simpl.
    + done.
    + unfold node_present, handle_live in *. simpl. rewrite destroyed_dead0.
      split; [by intros [? ?]|done].
  - intros [Hal Hnr]. split.
    + constructor; simpl; rewrite ?length_alter; [congruence|done].
    + unfold listeners_of. simpl.
      rewrite (element_at_alter_field listeners) by done.
      by apply destroyed_listeners0.
Qed.

Lemma _hide_node x n :
  _tooltipNode (this x) = Elem n ->
  wp _hide (fun r s' => r = Normal ReturnsThis /\ benign x s') x.
Proof.
  intros Hn. unfold _hide. apply wp_bind, wp_get_this.
  destruct (_isOpen (this x)); simpl.
  - rewrite Hn. wp_steps. split; [done|]. eauto 10 with benign.
  - apply wp_ret. split; [done|apply benign_refl].
Qed.

(** What [_dispose] does with the handle and with listeners, besides
    evolving the controller. *)
Lemma _dispose_spec x :
  wp _dispose (fun r s' =>
    evolves x s' /\
    popperInstance (this s') = popperInstance (this x) /\
    (forall m, _tooltipNode (this x) <> Elem m -> listeners_of s' m = listeners_of x m) /\
    (consistent x ->
       r = Normal ReturnsThis /\ forall n, _tooltipNode (this s') <> Elem n)) x.
Proof.
  unfold _dispose. apply wp_bind, wp_get_this.
  destruct (_tooltipNode (this x)) as [| |n] eqn:Hnode.
  1,2: apply wp_ret; split; [apply evolves_refl|]; repeat split; try done;
       by rewrite Hnode.
  apply wp_bind. eapply wp_mono; [by apply (_hide_node x n)|].
  cbv beta. intros ? x1 [-> H1].
  apply wp_bind.
  destruct (popperInstance (this x)) as [p|] eqn:Hp.
  2: { apply wp_throw. split; [by apply benign_evolves|].
       split; [by rewrite (benign_handle _ _ H1)|].
       split; [intros m Hm; apply (benign_listeners _ _ H1); congruence|].
       intros [_ Hnh]. unfold node_present, handle_live in Hnh.
       rewrite Hp in Hnh. destruct Hnh as [Hnh _].
       by specialize (Hnh (ex_intro _ n Hnode)). }
  unfold popper_destroy at 1. apply wp_modify. apply wp_bind.
  eapply wp_mono.
  { eapply (remove_recorded_benign n); [|apply benign_refl].
    simpl. by rewrite (benign_node _ _ H1). }
  cbv beta. intros ? x3 [-> H3].
  assert (Hd : handle_destroyed x x3).
  { eapply handle_destroyed_intro; [|exact Hp|exact H1|exact H3]. done. }
  wp_steps; simpl in *.
  - split; [by apply disposed_evolves|]. destruct Hd.
    split; [simpl; congruence|]. split; [|done].
    intros m Hm. unfold listeners_of. simpl.
    rewrite (element_at_alter_field listeners) by done.
    apply destroyed_listeners0. congruence.
  - split; [by eapply orphaned_evolves|]. destruct Hd.
    split; [simpl; congruence|].
    split; [intros m Hm; apply destroyed_listeners0; congruence|].
    intros [Hat _]. destruct (Hat n Hnode) as [c Hc].
    unfold parent_of in *. congruence.
Qed.

Lemma _dispose_evolves x : wp _dispose (fun _ s' => evolves x s') x.
Proof. eapply wp_mono; [apply _dispose_spec|]. by intros ?? []. Qed.

(** ** Listeners, timers and actions *)

Lemma wp_evolves_from {A} (m : JS A) s x :
  evolves s x ->
  wp m (fun _ s' => evolves x s') x ->
  wp m (fun _ s' => evolves s s') x.
Proof. intros H Hm. eapply wp_mono; [exact Hm|]. intros. by eapply evolves_trans. Qed.

Lemma wp_benign_evolves {A} (m : JS A) x :
  wp m (fun _ s' => benign x s') x ->
  wp m (fun _ s' => evolves x s') x.
Proof. intros Hm. eapply wp_mono; [exact Hm|]. intros. by apply benign_evolves. Qed.

Lemma call_listener_evolves l evt x :
  wp (call_listener l evt) (fun _ s' => evolves x s') x.
Proof.
  apply wp_benign_evolves. unfold call_listener.
  apply wp_bind, wp_get_this. destruct l.
  - wp_steps; eauto with benign.
    wp_call _scheduleShow_benign x; wp_steps; done.
  - wp_steps; eauto with benign.
    wp_call _scheduleHide_benign x; wp_steps; done.
  - apply wp_bind. wp_call transfer_callback_body_benign x; wp_steps; done.
Qed.

Lemma call_timer_evolves c x :
  wp (call_timer c) (fun _ s' => evolves x s') x.
Proof.
  unfold call_timer. apply wp_bind, wp_get_this. destruct c.
  - apply wp_bind. eapply wp_mono; [apply _show_evolves|].
    cbv beta. intros [?|?] ? ?; [by apply wp_ret|done].
  - apply wp_benign_evolves, hide_timer_body_benign, benign_refl.
Qed.

Lemma invoke_listeners_evolves target ls : forall evt s x,
  evolves s x ->
  wp (invoke_listeners target ls evt) (fun _ s' => evolves s s') x.
Proof.
  induction ls as [|l ls IH]; intros evt s x H; simpl.
  - by apply wp_ret.
  - apply wp_bind, wp_get. apply wp_bind. case_decide.
    + apply wp_reported. eapply wp_mono; [apply call_listener_evolves|].
      cbv beta. intros [?|?] s' Hs'; apply IH; by eapply evolves_trans.
    + apply wp_ret. by apply IH.
Qed.

Lemma dispatchEvent_evolves target evt x :
  wp (dispatchEvent target evt) (fun _ s' => evolves x s') x.
Proof.
  unfold dispatchEvent. apply wp_bind, wp_get.
  apply invoke_listeners_evolves, evolves_refl.
Qed.

Lemma fire_timer_evolves i x :
  wp (fire_timer i) (fun _ s' => evolves x s') x.
Proof.
  unfold fire_timer. apply wp_bind, wp_get.
  destruct (timers (window x) !! i) as [[ms callback]|]; [|apply wp_ret, evolves_refl].
  apply wp_bind, wp_modify. apply wp_reported.
  eapply wp_mono.
  { apply wp_evolves_from; [|apply call_timer_evolves].
    by apply benign_evolves, benign_timers, benign_refl. }
  by intros [?|?].
Qed.

Lemma perform_evolves a x : evolves x (perform a x).2.
Proof.
  change (wp (perform a) (fun _ s' => evolves x s') x).
  destruct a; simpl.
  - apply wp_bind. unfold show. apply wp_bind, wp_get_this.
    eapply wp_mono; [apply _show_evolves|]. intros [?|?] ? ?; [by apply wp_ret|done].
  - apply wp_bind. eapply wp_mono; [apply wp_benign_evolves, _hide_benign, benign_refl|].
    intros [?|?] ? ?; [by apply wp_ret|done].
  - apply wp_bind. unfold toggle. apply wp_bind, wp_get_this.
    destruct (_isOpen (this x)).
    + eapply wp_mono; [apply wp_benign_evolves, _hide_benign, benign_refl|].
      intros [?|?] ? ?; [by apply wp_ret|done].
    + unfold show. apply wp_bind, wp_get_this.
      eapply wp_mono; [apply _show_evolves|]. intros [?|?] ? ?; [by apply wp_ret|done].
  - apply wp_bind. eapply wp_mono; [apply _dispose_evolves|].
    intros [?|?] ? ?; [by apply wp_ret|done].
  - apply dispatchEvent_evolves.
  - apply fire_timer_evolves.
Qed.

Lemma after_evolves actions : forall s, evolves s (after actions s).
Proof.
  induction actions as [|a actions IH]; intros s; simpl.
  - apply evolves_refl.
  - eapply evolves_trans; [apply perform_evolves|apply IH].
Qed.

(** ** The constructor *)

Lemma binding_listen r k event func s :
  binding r k s ->
  binding r k
    (on_elements (alter (fun e =>
         if decide ((event, func) ∈ listeners e) then e
         else set_listeners (listeners e ++ [(event, func)]) e) r)
       (on_this (fun t => set_events (_events t ++ [(event, func)]) t)
          (on_window (fun w => set_functions (S (functions w)) w) s))).
Proof.
  intros []. constructor; simpl; try done.
  - by rewrite length_alter.
  - intros Hr l Hl. unfold listeners_of in *. simpl.
    rewrite element_at_alter_eq by lia.
    apply elem_of_app in Hl as [Hl|Hl%list_elem_of_singleton].
    + specialize (binding_recorded0 Hr l Hl).
      case_decide; [done|]. simpl. apply elem_of_app. by left.
    + subst l. case_decide; [done|]. simpl. apply elem_of_app. right.
      by apply list_elem_of_singleton.
Qed.

Lemma listen_direct_binding r k events : forall s,
  binding r k s ->
  wp (listen_direct r events) (fun res s' => res = Normal tt /\ binding r k s') s.
Proof.
  induction events as [|e events IH]; intros s H; simpl.
  - by apply wp_ret.
  - wp_steps. apply IH. by apply binding_listen.
Qed.

Lemma listen_opposite_binding r k events : forall s,
  binding r k s ->
  wp (listen_opposite r events) (fun res s' => res = Normal tt /\ binding r k s') s.
Proof.
  induction events as [|e events IH]; intros s H; simpl.
  - by apply wp_ret.
  - wp_steps. apply IH. by apply binding_listen.
Qed.

Lemma new_Tooltip_binding r user w :
  binding r (length (elements w)) (new_Tooltip r user w).
Proof.
  unfold new_Tooltip.
  set (s := mkState _ w).
  change (wp (constructor user) (fun _ s' => binding r (length (elements w)) s') s).
  unfold constructor, _setEventListeners. wp_steps.
  eapply wp_mono.
  { apply listen_direct_binding with (k := length (elements w)).
    constructor; simpl; try done. intros _ l Hl. by apply elem_of_nil in Hl. }
  cbv beta. intros ? s1 [-> H1].
  eapply wp_mono; [by apply listen_opposite_binding|].
  cbv beta. by intros ? s2 [-> H2].
Qed.

Lemma binding_consistent r k s : binding r k s -> consistent s.
Proof.
  intros []. constructor.
  - intros n Hn. congruence.
  - unfold node_present, handle_live. rewrite binding_node0, binding_handle0.
    split; [by intros [? ?]|done].
Qed.

Lemma binding_apart r k s : binding r k s -> r < k -> reference_apart s.
Proof. intros [] Hr. constructor; [lia|congruence]. Qed.

(** What holds of every state a controller reaches from its
    construction. *)
Lemma reachable r user w actions :
  let s0 := new_Tooltip r user w in
  let s := after actions s0 in
  consistent s /\
  reference (this s) = r /\
  (r < length (elements w) ->
     reference_apart s /\
     listeners_of s r = listeners_of s0 r /\
     forall l, l ∈ _events (this s0) -> l ∈ listeners_of s r).
Proof.
  intros s0 s.
  pose proof (new_Tooltip_binding r user w) as Hb. fold s0 in Hb.
  pose proof (after_evolves actions s0) as He. fold s in He.
  destruct He as [Href _ Hc Ha].
  rewrite (binding_reference _ _ _ Hb) in *.
  split; [eapply Hc, binding_consistent; eauto|]. split; [done|].
  intros Hr. destruct Ha as [Hap Hl]; [by eapply binding_apart|].
  split; [done|]. split; [done|].
  intros l Hl'. rewrite Hl. by eapply binding_recorded.
Qed.

(** * Properties of the class *)

(** ** A run of the class

    The button has [title="Hi"] and the trigger is a click.  A click and
    its timer open a tooltip under the parent of the button, with "Hi" as
    the text of its inner node; the direct listener marks the event, so
    the opposite listener of the same click arms no timer.  A second
    click and its timer close the tooltip and hide the node, which stays
    where it is. *)
Example click_opens_then_closes :
  let s0 := new_Tooltip 2 click_trigger page in
  let s1 := after [Dispatch 2 click] s0 in
  let s2 := after [Fire 0] s1 in
  let s3 := after [Dispatch 2 click; Fire 0] s2 in
  _events (this s0) = [("click", DirectHandler 0); ("click", OppositeHandler 1)] /\
  timers (window s1) = [(0%Z, ShowTimer)] /\
  (_isOpen (this s2) = true /\
   _tooltipNode (this s2) = Elem 4 /\
   parent_of s2 4 = parent_of s0 2 /\
   parent_of s2 5 = Some 4 /\
   inner (element_at (elements (window s2)) 5) = InnerText "Hi") /\
  (_isOpen (this s3) = false /\
   _tooltipNode (this s3) = Elem 4 /\
   style_display (element_at (elements (window s3)) 4) = "none" /\
   parent_of s3 4 = parent_of s0 2).
Proof. vm_compute. by repeat split. Qed.

(** ** Showing without a title *)

(** A closed controller without a floating node whose title resolves to
    something falsy: [show] returns after it has set [_isOpen]. *)
Lemma show_untitled s :
  _isOpen (this s) = false ->
  (forall n, _tooltipNode (this s) <> Elem n) ->
  title_falsy (resolve_title
    (title_attribute (element_at (elements (window s)) (reference (this s))))
    (title (options (this s)))) = true ->
  show s = (Normal ReturnsThis, on_this (set_isOpen true) s).
Proof.
  intros Hopen Hnode Htitle.
  unfold show, _show, bind, get_this, get, ret, modify, getAttribute_title. simpl.
  rewrite Hopen. destruct (_tooltipNode (this s)) as [| |n]; simpl.
  - by rewrite Htitle.
  - by rewrite Htitle.
  - by destruct (Hnode n).
Qed.

(** C1, on the input where the code departs from it: the button has no
    [title] attribute and the configured title is the empty default;
    [show()] creates no floating node and no element, but it leaves
    [_isOpen] equal to [true]. *)
Theorem show_without_title_marks_open :
  let s := new_Tooltip 2 no_options untitled_page in
  let s' := (show s).2 in
  (show s).1 = Normal ReturnsThis /\
  _isOpen (this s) = false /\
  _isOpen (this s') = true /\
  _tooltipNode (this s') = Undefined /\
  elements (window s') = elements (window s).
Proof. vm_compute. by repeat split. Qed.

(** C10: with no non-empty [title] attribute on the reference and a falsy
    configured title, [show(); hide();] on a closed controller without a
    floating node ends in a TypeError: [show] returns normally with
    [_isOpen] set and no node created, so [hide] passes its guard and
    reads [style] of a node that is not there. *)
Theorem show_then_hide_without_title_throws s :
  _isOpen (this s) = false ->
  (forall n, _tooltipNode (this s) <> Elem n) ->
  (forall a, title_attribute (element_at (elements (window s)) (reference (this s)))
             = Some a -> a = "") ->
  title_falsy (title (options (this s))) = true ->
  let s1 := (show s).2 in
  (show s).1 = Normal ReturnsThis /\
  _isOpen (this s1) = true /\
  _tooltipNode (this s1) = _tooltipNode (this s) /\
  elements (window s1) = elements (window s) /\
  (hide s1).1 = Throw TypeError /\
  (show;; hide) s = (Throw TypeError, on_this (set_isOpen false) s1).
Proof.
  intros Hopen Hnode Hattr Htitle.
  assert (Hshow : show s = (Normal ReturnsThis, on_this (set_isOpen true) s)).
  { apply show_untitled; [done|done|].
    unfold resolve_title.
    destruct (title_attribute _) as [a|]; [|done].
    rewrite (Hattr a eq_refl). by case_decide. }
  cbv zeta. unfold bind. rewrite Hshow. simpl.
  unfold hide, _hide, bind, get_this, get, ret, modify, throw. simpl.
  destruct (_tooltipNode (this s)) as [| |n] eqn:Hn; simpl; try done.
  by destruct (Hnode n).
Qed.

Lemma show_then_hide_without_title_throws_witness :
  ((show;; hide) (new_Tooltip 2 no_options untitled_page)).1 = Throw TypeError.
Proof.
  pose proof (show_then_hide_without_title_throws
                (new_Tooltip 2 no_options untitled_page)) as H.
  cbv zeta in H.
  destruct H as (_ & _ & _ & _ & _ & ->).
  - reflexivity.
  - intros n. vm_compute. discriminate.
  - intros a. vm_compute. discriminate.
  - reflexivity.
  - reflexivity.
Defined.

(** ** Hiding what is closed *)

(** C6: [hide()] on a closed controller returns the controller and
    changes nothing: [_isOpen], the floating node, the handle, the
    recorded listeners and the whole window are as before. *)
Theorem hide_when_closed_is_noop s :
  _isOpen (this s) = false ->
  hide s = (Normal ReturnsThis, s) /\
  let s' := (hide s).2 in
  _isOpen (this s') = _isOpen (this s) /\
  _tooltipNode (this s') = _tooltipNode (this s) /\
  popperInstance (this s') = popperInstance (this s) /\
  _events (this s') = _events (this s) /\
  window s' = window s.
Proof.
  intros Hopen.
  assert (H : hide s = (Normal ReturnsThis, s)).
  { unfold hide, _hide, bind, get_this, get, ret. simpl. by rewrite Hopen. }
  by rewrite H.
Qed.

Lemma hide_when_closed_is_noop_witness :
  hide (new_Tooltip 2 no_options page) = (Normal ReturnsThis, new_Tooltip 2 no_options page).
Proof.
  apply (hide_when_closed_is_noop (new_Tooltip 2 no_options page)).
  reflexivity.
Defined.

(** ** Node and handle *)

(** C4 as stated fails: after [show(); dispose();] the floating node is
    cleared while the field [popperInstance] still holds the handle. *)
Lemma node_iff_handle_fails_after_dispose :
  let s := after [CallShow; CallDispose] (new_Tooltip 2 no_options page) in
  ~ (node_present s <-> handle_present s).
Proof.
  cbv zeta. intros [_ H].
  assert (Hp : handle_present (after [CallShow; CallDispose] (new_Tooltip 2 no_options page)))
    by (by exists 0).
  destruct (H Hp) as [n Hn]. vm_compute in Hn. discriminate.
Qed.

(** C4, amended: in every state a controller reaches after construction
    by calls of show, hide, toggle and dispose, by events and by timers,
    the floating node is present if and only if the field [popperInstance]
    holds a handle that was not destroyed; [dispose] destroys the handle
    with the node and leaves the field as it is. *)
Theorem node_iff_live_handle r user w actions :
  let s := after actions (new_Tooltip r user w) in
  (node_present s <-> handle_live s = true) /\
  popperInstance (this (dispose s).2) = popperInstance (this s) /\
  handle_live (dispose s).2 = false.
Proof.
  intros s.
  destruct (reachable r user w actions) as (Hc & _). fold s in Hc.
  split; [apply Hc|].
  pose proof (_dispose_spec s) as (He & Hp & _ & Hn). fold dispose in *.
  split; [done|].
  destruct (Hn Hc) as [_ Hnone].
  destruct (evolves_consistent _ _ He Hc) as [_ Hnh].
  destruct (handle_live (dispose s).2); [|done].
  destruct Hnh as [_ Hnh]. destruct (Hnh eq_refl) as [n Hn']. by destruct (Hnone n).
Qed.

(** ** Disposing twice *)

(** C8: in every state a controller reaches, [dispose()] returns the
    controller and clears the floating node, and a second [dispose()]
    right after it returns the controller and changes nothing. *)
Theorem dispose_twice r user w actions :
  let s := after actions (new_Tooltip r user w) in
  let s1 := (dispose s).2 in
  (dispose s).1 = Normal ReturnsThis /\
  (forall n, _tooltipNode (this s1) <> Elem n) /\
  dispose s1 = (Normal ReturnsThis, s1).
Proof.
  intros s s1.
  destruct (reachable r user w actions) as (Hc & _). fold s in Hc.
  pose proof (_dispose_spec s) as (_ & _ & _ & Hn). fold dispose in *.
  destruct (Hn Hc) as [Hret Hnone]. fold s1 in Hnone.
  split; [done|]. split; [done|].
  unfold dispose, _dispose, bind, get_this, get, ret. simpl.
  destruct (_tooltipNode (this s1)) as [| |n] eqn:E; [done|done|].
  by destruct (Hnone n).
Qed.

(** ** Listeners on the reference *)

(** C9: [dispose()] removes listeners from the floating node only: the
    listeners of every other element, and so of the reference, are the
    same after it, and every listener the constructor recorded for the
    reference is still registered on it. *)
Theorem dispose_keeps_reference_listeners r user w actions :
  r < length (elements w) ->
  let s0 := new_Tooltip r user w in
  let s := after actions s0 in
  let s' := (dispose s).2 in
  (forall m, _tooltipNode (this s) <> Elem m -> listeners_of s' m = listeners_of s m) /\
  listeners_of s' r = listeners_of s r /\
  (forall l, l ∈ _events (this s0) -> l ∈ listeners_of s' r).
Proof.
  intros Hr s0 s s'.
  destruct (reachable r user w actions) as (Hc & Href & Hrest).
  fold s0 s in Hc, Href, Hrest.
  destruct (Hrest Hr) as ([_ Hnr] & Hsame & Hrec).
  pose proof (_dispose_spec s) as (_ & _ & Hl & _). fold dispose s' in Hl.
  assert (Hkeep : listeners_of s' r = listeners_of s r).
  { apply Hl. by rewrite <- Href. }
  split; [done|]. split; [done|].
  intros l Hin. rewrite Hkeep. by apply Hrec.
Qed.

Lemma dispose_keeps_reference_listeners_witness :
  listeners_of (dispose (after [CallShow] (new_Tooltip 2 no_options page))).2 2
  = listeners_of (after [CallShow] (new_Tooltip 2 no_options page)) 2.
Proof.
  apply (dispose_keeps_reference_listeners 2 no_options page [CallShow]).
  vm_compute. lia.
Defined.

(** A node with a parent is an element of the store. *)
Lemma element_allocated s n : is_Some (parent_of s n) -> n < length (elements (window s)).
Proof.
  unfold parent_of, element_at. intros [c Hc].
  destruct (elements (window s) !! n) eqn:E; [by eapply lookup_lt_Some|done].
Qed.

(** ** The title of the first show *)

(** The text that the first show writes into the inner node. *)
Lemma show_first_content s ttl text :
  _isOpen (this s) = false ->
  (forall n, _tooltipNode (this s) <> Elem n) ->
  template (options (this s)) = WrapperWithInner ->
  resolve_title (title_attribute (element_at (elements (window s)) (reference (this s))))
    (title (options (this s))) = ttl ->
  title_falsy ttl = false ->
  (ttl = TitleString text \/ exists f, ttl = TitleFunction f /\ text = f (reference (this s))) ->
  inner (element_at (elements (window (show s).2)) (S (S (length (elements (window s))))))
  = if html (options (this s)) then InnerHTML text else InnerText text.
Proof.
  intros Hopen Hnode Htpl Httl Hfalsy Hshape.
  change (wp show (fun _ s' =>
    inner (element_at (elements (window s')) (S (S (length (elements (window s))))))
    = if html (options (this s)) then InnerHTML text else InnerText text) s).
  unfold show, _show. apply wp_bind, wp_get_this. apply wp_bind, wp_get_this.
  rewrite Hopen. apply wp_bind, wp_modify.
  destruct (_tooltipNode (this s)) as [| |n] eqn:Hn; [| |by destruct (Hnode n)].
  all: unfold getAttribute_title; apply wp_bind, wp_bind, wp_get, wp_ret; simpl.
  all: rewrite Httl, Hfalsy, Htpl.
  all: unfold _create, assign_innerHTML, assign_content, _append, appendChild.
  all: destruct Hshape as [->|(f & -> & ->)].
  all: wp_steps; simpl.
  all: rewrite ?length_alter, ?length_app; simpl length; rewrite ?Nat.add_1_r.
  all: rewrite ?length_alter, ?length_app; simpl length; rewrite ?Nat.add_1_r.
  all: repeat first
    [ rewrite (element_at_alter_field inner (set_parentNode _)) by done
    | rewrite element_at_alter_eq by lengths ].
  all: try done.
Qed.

(** An element of the page is not above the inner node of a wrapper that
    was just parsed. *)
Lemma created_inner_apart els el :
  el < length els ->
  is_ancestor (S (S (S (S (length els)))))
    (alter (set_parentNode (Some (S (length els)))) (S (S (S (length els))))
       (alter (set_parentNode (Some (S (length els)))) (S (S (length els)))
          (alter (set_parentNode (Some (length els))) (S (length els))
             ((els ++ [blank_element]) ++ [blank_element]) ++ [blank_element])
        ++ [blank_element]))
    el (S (S (length els))) = false.
Proof.
  intros Hel. simpl.
  case_decide; [lia|].
  rewrite element_at_alter_ne by lia.
  rewrite element_at_snoc_blank, element_at_alter_eq by lengths. simpl.
  case_decide; [lia|].
  rewrite element_at_alter_ne by lia.
  rewrite element_at_snoc_blank, element_at_alter_ne by lia.
  rewrite element_at_snoc_blank, element_at_alter_eq by lengths. simpl.
  case_decide; [lia|].
  rewrite element_at_alter_ne by lia.
  rewrite element_at_snoc_blank, element_at_alter_ne by lia.
  rewrite element_at_snoc_blank, element_at_alter_ne by lia.
  rewrite element_at_snoc_blank.
  unfold element_at. rewrite lookup_app_r by lia. rewrite Nat.sub_diag. simpl.
  done.
Qed.

(** A title that is an element becomes a child of the inner node. *)
Lemma show_first_element s el :
  _isOpen (this s) = false ->
  (forall n, _tooltipNode (this s) <> Elem n) ->
  template (options (this s)) = WrapperWithInner ->
  resolve_title (title_attribute (element_at (elements (window s)) (reference (this s))))
    (title (options (this s))) = TitleElement el ->
  html (options (this s)) = true ->
  el < length (elements (window s)) ->
  parent_of (show s).2 el = Some (S (S (length (elements (window s))))).
Proof.
  intros Hopen Hnode Htpl Httl Hhtml Hel.
  change (wp show (fun _ s' =>
    parent_of s' el = Some (S (S (length (elements (window s)))))) s).
  unfold show, _show. apply wp_bind, wp_get_this. apply wp_bind, wp_get_this.
  rewrite Hopen. apply wp_bind, wp_modify.
  destruct (_tooltipNode (this s)) as [| |n] eqn:Hn; [| |by destruct (Hnode n)].
  all: unfold getAttribute_title; apply wp_bind, wp_bind, wp_get, wp_ret; simpl.
  all: rewrite Httl, Htpl, Hhtml; simpl.
  all: unfold _create, assign_innerHTML, assign_content, _append, appendChild.
  all: wp_steps; simpl in *.
  all: repeat (progress (rewrite ?length_alter, ?length_app in *; simpl length in *;
                         rewrite ?Nat.add_1_r in * )).
  all: try match goal with H : is_ancestor _ _ _ _ = true |- _ =>
             rewrite created_inner_apart in H by done; discriminate end.
  all: unfold parent_of; simpl.
  all: rewrite ?length_alter, ?length_app; simpl length; rewrite ?Nat.add_1_r.
  all: rewrite ?length_alter, ?length_app; simpl length; rewrite ?Nat.add_1_r.
  all: rewrite ?(element_at_alter_ne _ _ (S (length (elements (window s))))) by lia.
  all: rewrite ?element_at_alter_eq by lengths.
  all: try done.
Qed.

(** C7: on the first show of a controller with the documented template
    shape, a non-empty [title] attribute of the reference is the title,
    whatever title is configured: its text is what the inner node of the
    floating node receives.  Only when the attribute is absent or empty
    is the configured title the title: a string or the result of a
    function is written into the inner node, an element is appended to it
    when [html] is set, and with a falsy one nothing is created. *)
Theorem title_attribute_overrides_default s :
  _isOpen (this s) = false ->
  (forall n, _tooltipNode (this s) <> Elem n) ->
  template (options (this s)) = WrapperWithInner ->
  let attribute :=
    title_attribute (element_at (elements (window s)) (reference (this s))) in
  let configured := title (options (this s)) in
  let inner_node := S (S (length (elements (window s)))) in
  let s' := (show s).2 in
  let shown := inner (element_at (elements (window s')) inner_node) in
  let as_content t := if html (options (this s)) then InnerHTML t else InnerText t in
  (forall a, attribute = Some a -> a <> "" ->
     resolve_title attribute configured = TitleString a /\ shown = as_content a) /\
  (attribute = None \/ attribute = Some "" ->
     resolve_title attribute configured = configured /\
     match configured with
     | TitleString t =>
         if decide (t = "") then elements (window s') = elements (window s)
         else shown = as_content t
     | TitleFunction f => shown = as_content (f (reference (this s)))
     | TitleElement el =>
         html (options (this s)) = true -> el < length (elements (window s)) ->
         parent_of s' el = Some inner_node
     | TitleAbsent => elements (window s') = elements (window s)
     end).
Proof.
  intros Hopen Hnode Htpl. cbv zeta.
  set (attribute := title_attribute _).
  split.
  - intros a Ha Hne.
    assert (Hres : resolve_title attribute (title (options (this s))) = TitleString a).
    { unfold resolve_title. rewrite Ha. by case_decide. }
    split; [done|].
    apply (show_first_content s (TitleString a) a);
      [done | done | done | done | | by left].
    simpl. by apply bool_decide_eq_false.
  - intros Hempty.
    assert (Hres : resolve_title attribute (title (options (this s)))
                   = title (options (this s))).
    { unfold resolve_title. destruct Hempty as [->| ->]; [done|by case_decide]. }
    split; [done|].
    destruct (title (options (this s))) as [t|el|f|] eqn:Hconf.
    + case_decide as Ht.
      * rewrite show_untitled; [done|done|done|].
        fold attribute. rewrite Hconf, Hres. simpl. by apply bool_decide_eq_true.
      * apply (show_first_content s (TitleString t) t);
          [done | done | done | by rewrite Hconf | | by left].
        simpl. by apply bool_decide_eq_false.
    + intros Hhtml Hel.
      apply show_first_element; [done | done | done | by rewrite Hconf | done | done].
    + apply (show_first_content s (TitleFunction f) (f (reference (this s))));
        [done | done | done | by rewrite Hconf | done |].
      right. by exists f.
    + rewrite show_untitled; [done|done|done|].
      fold attribute. by rewrite Hconf, Hres.
Qed.

Lemma title_attribute_overrides_default_witness :
  inner (element_at
           (elements (window (show (new_Tooltip 2 default_title page)).2)) 5)
  = InnerText "Hi".
Proof.
  pose proof (title_attribute_overrides_default (new_Tooltip 2 default_title page)) as H.
  destruct H as [H _].
  - reflexivity.
  - intros n. vm_compute. discriminate.
  - reflexivity.
  - destruct (H "Hi") as [_ Hshown]; [reflexivity | discriminate | exact Hshown].
Defined.

(** ** The pointer moves onto the tooltip *)

Section PointerTransfer.
#[local] Arguments contains : simpl never.

(** The hide timer of a "mouseleave" whose [relatedreference] and
    [toElement] hold no element hides the tooltip, whatever
    [relatedTarget] is. *)
Lemma hide_timer_without_toElement s n evt r d o :
  _isOpen (this s) = true ->
  _tooltipNode (this s) = Elem n ->
  n < length (elements (window s)) ->
  contains (elements (window s)) (document_body (window s)) (Elem n) = true ->
  type evt = "mouseleave" ->
  (forall m, ref_or (relatedreference evt) (toElement evt) <> Elem m) ->
  let s' := (hide_timer_body r d o evt s).2 in
  (hide_timer_body r d o evt s).1 = Normal tt /\
  _isOpen (this s') = false /\
  listeners_of s' n = listeners_of s n /\
  style_display (element_at (elements (window s')) n) = "none".
Proof.
  intros Hopen Hn Hlt Hbody Htype Hrel.
  change (wp (hide_timer_body r d o evt) (fun res s' =>
    res = Normal tt /\ _isOpen (this s') = false /\
    listeners_of s' n = listeners_of s n /\
    style_display (element_at (elements (window s')) n) = "none") s).
  unfold hide_timer_body. apply wp_bind, wp_get_this. rewrite Hopen. simpl.
  apply wp_bind. unfold body_contains. apply wp_bind, wp_get, wp_ret.
  rewrite Hn, Hbody. simpl. rewrite decide_True by done.
  apply wp_bind. unfold _setTooltipNodeEvent, fresh_function, _isElOrChildOfEl.
  wp_steps; simpl in *; simplify_eq.
  all: try match goal with
           | H : ref_or _ _ = Elem ?m |- _ => by destruct (Hrel m)
           | H : Elem _ = ref_or _ _ |- _ => symmetry in H; by destruct (Hrel _ H)
           | H : contains _ _ ?r = true |- _ =>
               destruct r as [| |m] eqn:Hr; [done|done|by destruct (Hrel m)]
           end.
  all: unfold _hide; wp_steps; simpl in *; try congruence.
  all: rewrite Hn in *; simplify_eq.
  all: try match goal with
           | H : negb (_isOpen _) = true |- _ => by rewrite Hopen in H
           end.
  all: unfold listeners_of; simpl.
  all: rewrite (element_at_alter_field listeners) by done.
  all: by rewrite element_at_alter_eq.
Qed.

(** The hide timer of a "mouseleave" whose [toElement] (or
    [relatedreference]) is the floating node or below it leaves the
    tooltip open and registers a new callback on the floating node. *)
Lemma hide_timer_with_toElement s n m evt r d o :
  _isOpen (this s) = true ->
  _tooltipNode (this s) = Elem n ->
  n < length (elements (window s)) ->
  contains (elements (window s)) (document_body (window s)) (Elem n) = true ->
  type evt = "mouseleave" ->
  ref_or (relatedreference evt) (toElement evt) = Elem m ->
  contains (elements (window s)) n (Elem m) = true ->
  let s' := (hide_timer_body r d o evt s).2 in
  (hide_timer_body r d o evt s).1 = Normal tt /\
  _isOpen (this s') = true /\
  timers (window s') = timers (window s) /\
  (type evt, TransferCallback (functions (window s)) evt) ∈ listeners_of s' n.
Proof.
  intros Hopen Hn Hlt Hbody Htype Hrel Hin.
  change (wp (hide_timer_body r d o evt) (fun res s' =>
    res = Normal tt /\ _isOpen (this s') = true /\
    timers (window s') = timers (window s) /\
    (type evt, TransferCallback (functions (window s)) evt) ∈ listeners_of s' n) s).
  unfold hide_timer_body. apply wp_bind, wp_get_this. rewrite Hopen. simpl.
  apply wp_bind. unfold body_contains. apply wp_bind, wp_get, wp_ret.
  rewrite Hn, Hbody. simpl. rewrite decide_True by done.
  apply wp_bind. unfold _setTooltipNodeEvent, fresh_function, _isElOrChildOfEl.
  rewrite Hrel.
  wp_steps; simpl in *; try congruence.
  all: rewrite Hn in *; simplify_eq; try congruence.
  all: repeat split; try done.
  all: unfold listeners_of; simpl; rewrite element_at_alter_eq by done.
  all: match goal with
       | |- context [decide (?x ∈ ?l)] => destruct (decide (x ∈ l)) as [Hd|Hd]
       end; simpl;
    [exact Hd | apply elem_of_app; right; by apply list_elem_of_singleton].
Qed.

(** The callback removes itself from the floating node; it arms a hide
    timer when the pointer went outside the reference, and none when it
    went onto the reference or below it. *)
Lemma transfer_callback_once s n self evt evt2 r o :
  _tooltipNode (this s) = Elem n ->
  n < length (elements (window s)) ->
  let s' := (transfer_callback_body self evt r o evt2 s).2 in
  let related := ref_or (relatedreference evt2) (toElement evt2) in
  (transfer_callback_body self evt r o evt2 s).1 = Normal tt /\
  ((type evt, self) ∉ listeners_of s' n) /\
  _isOpen (this s') = _isOpen (this s) /\
  timers (window s') =
    if bool_decide (related = Elem r) || contains (elements (window s)) r related
    then timers (window s)
    else timers (window s)
         ++ [(timeout_ms (computedDelay_hide (delay o)), HideTimer evt2)].
Proof.
  intros Hn Hlt.
  change (wp (transfer_callback_body self evt r o evt2) (fun res s' =>
    res = Normal tt /\
    ((type evt, self) ∉ listeners_of s' n) /\
    _isOpen (this s') = _isOpen (this s) /\
    timers (window s') =
      if bool_decide (ref_or (relatedreference evt2) (toElement evt2) = Elem r)
         || contains (elements (window s)) r
              (ref_or (relatedreference evt2) (toElement evt2))
      then timers (window s)
      else timers (window s)
           ++ [(timeout_ms (computedDelay_hide (delay o)), HideTimer evt2)]) s).
  assert (Hgone : (type evt, self) ∉ listeners (element_at
            (alter (fun e => set_listeners
                      (filter (fun l => l ≠ (type evt, self)) (listeners e)) e)
                   n (elements (window s))) n)).
  { rewrite element_at_alter_eq by done. simpl.
    intros Hl. apply list_elem_of_filter in Hl as [Hl _]. done. }
  unfold transfer_callback_body. apply wp_bind, wp_get_this. rewrite Hn.
  apply wp_bind. unfold removeEventListener at 1. apply wp_modify.
  unfold _isElOrChildOfEl, _scheduleHide, setTimeout.
  wp_steps; simpl in *; rewrite ?contains_alter in * by done.
  all: repeat split; try done.
  all: try (rewrite bool_decide_eq_true_2 by done; done).
  all: try (rewrite bool_decide_eq_false_2 by done; simpl).
  all: by destruct (contains _ _ _).
Qed.

End PointerTransfer.

(** C2, on the input where the code departs from it, and next to it the
    input where it does not.  The tooltip of the button is open and the
    pointer leaves the button for the inner node of the tooltip.  When the
    event carries that node as [relatedTarget] only, the hide timer finds
    no related element ([relatedreference] and [toElement] are all it
    reads), attaches no listener and hides the tooltip.  When the event
    carries the node as [toElement], the tooltip stays open and has one
    listener for "mouseleave"; that listener removes itself when it
    runs, and hides the tooltip, through a new timer, when the pointer
    went to the body but not when it went back to the button. *)
Theorem related_target_is_not_read :
  let lost := after [Dispatch 2 leave_to_tooltip; Fire 0] open_tooltip in
  let kept := after [Dispatch 2 leave_to_tooltip_legacy; Fire 0] open_tooltip in
  let left := after [Dispatch 4 leave_to_body; Fire 0] kept in
  let back := after [Dispatch 4 leave_to_button] kept in
  (_isOpen (this open_tooltip) = true /\
   _tooltipNode (this open_tooltip) = Elem 4 /\
   contains (elements (window open_tooltip)) 4 (relatedTarget leave_to_tooltip) = true) /\
  (_isOpen (this lost) = false /\
   style_display (element_at (elements (window lost)) 4) = "none" /\
   listeners_of lost 4 = []) /\
  (_isOpen (this kept) = true /\
   listeners_of kept 4 = [("mouseleave", TransferCallback 4 leave_to_tooltip_legacy)]) /\
  (_isOpen (this left) = false /\ listeners_of left 4 = []) /\
  (_isOpen (this back) = true /\ listeners_of back 4 = [] /\ timers (window back) = []).
Proof. vm_compute. by repeat split. Qed.

(** ** The container *)

(** With a selector string as container every first show that gets past
    the title ends in an exception, and no floating node is recorded. *)
Lemma show_selector_container_throws s q :
  _isOpen (this s) = false ->
  (forall n, _tooltipNode (this s) <> Elem n) ->
  container (options (this s)) = ContainerSelector q ->
  title_falsy (resolve_title
    (title_attribute (element_at (elements (window s)) (reference (this s))))
    (title (options (this s)))) = false ->
  (exists e, (show s).1 = Throw e) /\
  _tooltipNode (this (show s).2) = _tooltipNode (this s) /\
  popperInstance (this (show s).2) = popperInstance (this s).
Proof.
  intros Hopen Hnode Hcont Htitle.
  change (wp show (fun res s' =>
    (exists e, res = Throw e) /\
    _tooltipNode (this s') = _tooltipNode (this s) /\
    popperInstance (this s') = popperInstance (this s)) s).
  unfold show, _show. apply wp_bind, wp_get_this. apply wp_bind, wp_get_this.
  rewrite Hopen. apply wp_bind, wp_modify.
  destruct (_tooltipNode (this s)) as [| |n] eqn:Hn; [| |by destruct (Hnode n)].
  all: unfold getAttribute_title; apply wp_bind, wp_bind, wp_get, wp_ret; simpl.
  all: rewrite Htitle, Hcont.
  all: apply wp_bind; (eapply wp_mono; [apply _create_spec, dom_grows_refl|]).
  all: cbv beta; intros [tn|e] x2 [[Ht _ _ _] _]; simpl in Ht.
  all: try (rewrite Ht; simpl; rewrite Hn; by eauto).
  all: unfold _append; wp_steps.
  all: rewrite Ht; simpl; rewrite Hn; by eauto.
Qed.

(** C3, on the input where the code departs from it, and next to it the
    inputs where it does not.  With [container: '#box'], a selector the
    document resolves to the div, [show()] throws a TypeError: the string
    itself is asked to append the node ([_findContainer] would resolve it,
    and nothing calls it), the wrapper stays under its generator and no
    floating node is recorded.  With an element as container the floating
    node is appended to that element, and with [false] to the parent of
    the reference. *)
Theorem selector_container_is_not_resolved :
  let s := new_Tooltip 2 box_container page in
  ((_findContainer (ContainerSelector "#box") s).1 = Normal (JElement 1) /\
   (show s).1 = Throw TypeError /\
   _tooltipNode (this (show s).2) = Undefined /\
   parent_of (show s).2 4 = Some 3) /\
  (let s := new_Tooltip 2 body_container page in
   (show s).1 = Normal ReturnsThis /\
   _tooltipNode (this (show s).2) = Elem 4 /\
   parent_of (show s).2 4 = Some 0) /\
  (let s := new_Tooltip 2 no_options page in
   (show s).1 = Normal ReturnsThis /\
   _tooltipNode (this (show s).2) = Elem 4 /\
   parent_of (show s).2 4 = parent_of s 2).
Proof. vm_compute. by repeat split. Qed.

(** * Frames *)

Section Respects.
Context (R : state -> state -> Prop).
Hypothesis R_refl : forall s, R s s.
Hypothesis R_trans : forall s x s', R s x -> R x s' -> R s s'.

Lemma respects_ret {A} (a : A) : respects R (ret a).
Proof. intros s. apply R_refl. Qed.

Lemma respects_throw {A} e : respects R (throw (A := A) e).
Proof. intros s. apply R_refl. Qed.

Lemma respects_get : respects R get.
Proof. intros s. apply R_refl. Qed.

Lemma respects_get_this : respects R get_this.
Proof. intros s. apply R_refl. Qed.

Lemma respects_modify f : (forall s, R s (f s)) -> respects R (modify f).
Proof. intros Hf s. apply Hf. Qed.

Lemma respects_bind {A B} (m : JS A) (f : A -> JS B) :
  respects R m -> (forall a, respects R (f a)) -> respects R (bind m f).
Proof.
  intros Hm Hf s. specialize (Hm s). unfold bind.
  destruct (m s) as [[a|e] x]; simpl in *; [|done].
  eapply R_trans; [exact Hm|apply Hf].
Qed.

Lemma respects_reported {A} (m : JS A) (otherwise : A) :
  respects R m -> respects R (reported m otherwise).
Proof.
  intros Hm s. specialize (Hm s). unfold reported.
  by destruct (m s) as [[a|e] x].
Qed.

End Respects.

(** Descends through a computation; [tac] proves the relation for a
    write, the hints of [db] for a call. *)
Ltac respects_go Hrefl Htrans tac :=
  repeat (wp_prim; lazymatch goal with
  | |- respects _ (bind _ _) => apply (respects_bind _ Htrans); [|intros ?]
  | |- respects _ (ret _) => apply (respects_ret _ Hrefl)
  | |- respects _ (throw _) => apply (respects_throw _ Hrefl)
  | |- respects _ get => apply (respects_get _ Hrefl)
  | |- respects _ get_this => apply (respects_get_this _ Hrefl)
  | |- respects _ (modify _) => apply respects_modify; intros ?; tac
  | |- respects _ (reported _ _) => apply respects_reported
  | |- respects _ (if ?b then _ else _) => destruct b
  | |- respects _ (match ?x with _ => _ end) => destruct x
  | |- respects _ (let _ := _ in _) => cbv zeta
  | |- respects _ _ => solve [auto with frames]
  end).

Create HintDb frames discriminated.

(** ** What never changes the visible state *)

Lemma calm_refl s : calm s s.
Proof. by constructor. Qed.

Lemma calm_trans s x s' : calm s x -> calm x s' -> calm s s'.
Proof.
  intros [] []. constructor; [congruence | auto |].
  intros m. by rewrite calm_display1.
Qed.

Lemma display_of_alter s f n m :
  (forall e, style_display (f e) = style_display e) ->
  display_of (on_elements (alter f n) s) m = display_of s m.
Proof. intros Hf. unfold display_of. simpl. by apply (element_at_alter_field style_display). Qed.

Lemma display_of_create s m :
  display_of (on_elements (fun els => els ++ [blank_element]) s) m = display_of s m.
Proof. unfold display_of. simpl. by rewrite element_at_snoc_blank. Qed.

(** A write that is not a write of [style.display], of [_isOpen] or of
    the node. *)
Ltac calm_write :=
  constructor; try reflexivity; intros;
  first [ done
        | apply display_of_create
        | apply display_of_alter; intros; repeat case_decide; reflexivity
        | reflexivity ].

Ltac calm_go := respects_go calm_refl calm_trans calm_write.

Lemma _create_calm r tpl ttl allowHtml : respects calm (_create r tpl ttl allowHtml).
Proof. unfold _create, assign_innerHTML, assign_content, appendChild. calm_go. Qed.

Lemma _append_calm tn c : respects calm (_append tn c).
Proof. unfold _append, appendChild. calm_go. Qed.

Lemma _scheduleShow_calm r d o : respects calm (_scheduleShow r d o).
Proof. unfold _scheduleShow. calm_go. Qed.

Lemma _scheduleHide_calm r d o e : respects calm (_scheduleHide r d o e).
Proof. unfold _scheduleHide. calm_go. Qed.

Lemma _setTooltipNodeEvent_calm e r d o : respects calm (_setTooltipNodeEvent e r d o).
Proof. unfold _setTooltipNodeEvent, _isElOrChildOfEl. calm_go. Qed.

Lemma transfer_callback_body_calm l e r o e2 :
  respects calm (transfer_callback_body l e r o e2).
Proof. unfold transfer_callback_body, _isElOrChildOfEl, _scheduleHide. calm_go. Qed.

Lemma remove_recorded_calm n l : respects calm (remove_recorded n l).
Proof.
  induction l as [|[event func] l IH]; simpl.
  - apply (respects_ret _ calm_refl).
  - apply (respects_bind _ calm_trans); [|by intros].
    calm_go.
Qed.

#[export] Hint Resolve _create_calm _append_calm _scheduleShow_calm _scheduleHide_calm
  _setTooltipNodeEvent_calm transfer_callback_body_calm remove_recorded_calm : frames.

Lemma wp_and {A} (m : JS A) (Q1 Q2 : completion A -> state -> Prop) s :
  wp m Q1 s -> wp m Q2 s -> wp m (fun r s' => Q1 r s' /\ Q2 r s') s.
Proof. unfold wp. by split. Qed.

Lemma wp_respects {A} (m : JS A) R s :
  respects R m -> wp m (fun _ s' => R s s') s.
Proof. intros H. apply H. Qed.

(** ** The first show, step by step *)

(** A closed controller without floating node: [_show] either gives up
    (the title is empty, or something throws) in a state where only
    elements were added, or it returns in [created_state]. *)
Lemma _show_first r o x :
  _isOpen (this x) = false ->
  (forall n, _tooltipNode (this x) <> Elem n) ->
  wp (_show r o) (fun res s' =>
    let x1 := on_this (set_isOpen true) x in
    (dom_grows x1 s' /\ calm x1 s') \/
    (exists x4 n,
       res = Normal ReturnsThis /\
       dom_grows x1 x4 /\ calm x1 x4 /\
       length (elements (window x)) < n < length (elements (window x4)) /\
       is_Some (parent_of x4 n) /\
       s' = created_state x4 r n
              (mkPopperOptions (placement o) arrowSelector (boundariesElement o)))) x.
Proof.
  intros Hopen Hnone. cbv zeta.
  unfold _show. apply wp_bind, wp_get_this. rewrite Hopen.
  apply wp_bind, wp_modify.
  set (x1 := on_this (set_isOpen true) x).
  destruct (_tooltipNode (this x)) as [| |n] eqn:Hnode; [| |by destruct (Hnone n)].
  all: wp_steps; [left; split; [apply dom_grows_refl|apply calm_refl]|].
  all: eapply wp_mono;
    [apply wp_and; [apply _create_spec, dom_grows_refl|apply wp_respects, _create_calm]|].
  all: cbv beta; intros [tn|?] x2 [[Hg Htn] Hc]; [|by left].
  all: apply wp_bind.
  all: eapply wp_mono with (Q := fun res s' => s' = x2 /\ exists c, res = Normal c);
    [ wp_steps; eauto | ].
  all: cbv beta; intros ? ? [-> [c ->]].
  all: apply wp_bind.
  all: eapply wp_mono;
    [apply wp_and; [apply _append_spec, dom_grows_refl|apply wp_respects, _append_calm]|].
  all: cbv beta; intros [[]|?] x4 [(Hg4 & Hlen4 & Hpar) Hc4].
  all: assert (Hg14 : dom_grows x1 x4) by (by eapply dom_grows_trans).
  all: assert (Hc14 : calm x1 x4) by (by eapply calm_trans).
  all: try by left.
  all: destruct tn as [| |n]; wp_steps; try by left.
  all: destruct (Htn n eq_refl) as [Hlo Hhi]; simpl in Hlo.
  all: right; exists x4, n.
  all: refine (conj eq_refl (conj Hg14 (conj Hc14 (conj _ (conj _ eq_refl))))).
  all: first [lia | apply Hpar; [done|done|lia]].
Qed.

(** ** The node is displayed exactly when the controller is open *)

Lemma keeps_steady_refl s : keeps_steady s s.
Proof. by intros ?. Qed.

Lemma keeps_steady_trans s x s' : keeps_steady s x -> keeps_steady x s' -> keeps_steady s s'.
Proof. unfold keeps_steady. auto. Qed.

Lemma calm_shown s s' : calm s s' -> shown_iff_open s -> shown_iff_open s'.
Proof.
  intros [Hopen Hnode Hdisplay] Hs n Hn.
  rewrite Hdisplay, Hopen. by apply Hs, Hnode.
Qed.

Lemma evolves_calm_steady s s' : evolves s s' -> calm s s' -> keeps_steady s s'.
Proof.
  intros He Hc [Hcons Hs]. split; [by apply (evolves_consistent _ _ He)|by eapply calm_shown].
Qed.

Lemma _hide_steady : respects keeps_steady _hide.
Proof.
  intros s [Hc Hs]. split.
  { pose proof (_hide_benign s s (benign_refl s)) as H.
    by apply (evolves_consistent _ _ (benign_evolves _ _ H)). }
  unfold _hide, bind, get_this, get, ret, modify, throw, style_display_assign. simpl.
  destruct (_isOpen (this s)) eqn:Hopen; simpl; [|done].
  destruct (_tooltipNode (this s)) as [| |n] eqn:Hn; simpl;
    intros m Hm; simpl in Hm; rewrite Hn in Hm; simplify_eq.
  simpl. unfold display_of. simpl.
  rewrite element_at_alter_eq; [done|].
  by apply element_allocated, (node_attached _ Hc).
Qed.

Lemma _show_steady r o : respects keeps_steady (_show r o).
Proof.
  intros s [Hc Hs]. split.
  { by apply (evolves_consistent _ _ (_show_evolves r o s)). }
  destruct (_isOpen (this s)) eqn:Hopen.
  { unfold _show, bind, get_this, get, ret. simpl. by rewrite Hopen. }
  destruct (_tooltipNode (this s)) as [| |n] eqn:Hn.
  3: { assert (Hlt : n < length (elements (window s)))
         by (by apply element_allocated, (node_attached _ Hc)).
       unfold _show, bind, get_this, get, ret, modify, throw, style_display_assign,
         popper_update. simpl. rewrite Hopen, Hn. simpl.
       destruct (popperInstance (this s)); simpl; intros m Hm; simpl in Hm;
         rewrite Hn in Hm; simplify_eq; unfold display_of; simpl;
         by rewrite element_at_alter_eq. }
  all: assert (Hnone : forall n, _tooltipNode (this s) <> Elem n) by (by rewrite Hn).
  all: pose proof (_show_first r o s Hopen Hnone) as Hfirst; unfold wp in Hfirst;
    cbv zeta in Hfirst.
  all: destruct Hfirst as [[_ Hcalm]|(x4 & n & _ & _ & Hcalm & [Hlo _] & _ & ->)].
  all: try (intros m Hm; apply (calm_node _ _ Hcalm) in Hm; simpl in Hm; congruence).
  all: intros m Hm; assert (m = n) as -> by (simpl in Hm; congruence); clear Hm.
  all: unfold created_state, display_of; simpl.
  all: pose proof (calm_display _ _ Hcalm n) as Hd; unfold display_of in Hd; simpl in Hd.
  all: rewrite (calm_open _ _ Hcalm); simpl.
  all: rewrite Hd; unfold element_at; by rewrite lookup_ge_None_2 by lia.
Qed.

Lemma _dispose_steady : respects keeps_steady _dispose.
Proof.
  intros s [Hc Hs]. split.
  { by apply (evolves_consistent _ _ (_dispose_evolves s)). }
  change (wp _dispose (fun _ s' => shown_iff_open s') s).
  unfold _dispose. apply wp_bind, wp_get_this.
  destruct (_tooltipNode (this s)) as [| |n] eqn:Hn; [by apply wp_ret|by apply wp_ret|].
  apply wp_bind.
  eapply wp_mono; [apply (wp_respects _ keeps_steady), _hide_steady|].
  cbv beta. intros res x1 H1. destruct (H1 (conj Hc Hs)) as [_ Hs1].
  destruct res; [|done].
  eapply wp_mono;
    [apply (wp_respects _ calm)|intros ? s' Hcalm; exact (calm_shown _ _ Hcalm Hs1)].
  calm_go.
Qed.

Lemma call_listener_calm l evt : respects calm (call_listener l evt).
Proof. unfold call_listener. calm_go. Qed.

Lemma respects_evolves_calm {A} (m : JS A) :
  respects evolves m -> respects calm m -> respects keeps_steady m.
Proof. intros He Hc s. by apply evolves_calm_steady. Qed.

Lemma hide_timer_body_steady r d o evt : respects keeps_steady (hide_timer_body r d o evt).
Proof.
  unfold hide_timer_body.
  apply (respects_bind _ keeps_steady_trans); [apply (respects_get_this _ keeps_steady_refl)|].
  intros t. destruct (negb (_isOpen t)); [apply (respects_ret _ keeps_steady_refl)|].
  apply (respects_bind _ keeps_steady_trans).
  { unfold body_contains.
    apply (respects_bind _ keeps_steady_trans); [apply (respects_get _ keeps_steady_refl)|].
    intros ?. apply (respects_ret _ keeps_steady_refl). }
  intros attached. destruct (negb attached); [apply (respects_ret _ keeps_steady_refl)|].
  apply (respects_bind _ keeps_steady_trans).
  { case_decide; [|apply (respects_ret _ keeps_steady_refl)].
    apply respects_evolves_calm; [|apply _setTooltipNodeEvent_calm].
    intros s. apply benign_evolves. apply (_setTooltipNodeEvent_benign _ _ _ _ s s), benign_refl. }
  intros isSet. destruct isSet; [apply (respects_ret _ keeps_steady_refl)|].
  apply (respects_bind _ keeps_steady_trans); [apply _hide_steady|].
  intros ?. apply (respects_ret _ keeps_steady_refl).
Qed.

Lemma call_timer_steady c : respects keeps_steady (call_timer c).
Proof.
  unfold call_timer.
  apply (respects_bind _ keeps_steady_trans); [apply (respects_get_this _ keeps_steady_refl)|].
  intros t. destruct c.
  - apply (respects_bind _ keeps_steady_trans); [apply _show_steady|].
    intros ?. apply (respects_ret _ keeps_steady_refl).
  - apply hide_timer_body_steady.
Qed.

Lemma invoke_listeners_steady target ls : forall evt,
  respects keeps_steady (invoke_listeners target ls evt).
Proof.
  induction ls as [|l ls IH]; intros evt; simpl.
  - apply (respects_ret _ keeps_steady_refl).
  - apply (respects_bind _ keeps_steady_trans); [apply (respects_get _ keeps_steady_refl)|].
    intros s. apply (respects_bind _ keeps_steady_trans); [|intros; apply IH].
    case_decide; [|apply (respects_ret _ keeps_steady_refl)].
    apply respects_reported, respects_evolves_calm; [|apply call_listener_calm].
    intros x. apply call_listener_evolves.
Qed.

Lemma perform_steady a : respects keeps_steady (perform a).
Proof.
  assert (Hret : forall A (a : A), respects keeps_steady (ret a))
    by (intros; apply (respects_ret _ keeps_steady_refl)).
  destruct a; simpl.
  - apply (respects_bind _ keeps_steady_trans); [|by intros].
    unfold show. apply (respects_bind _ keeps_steady_trans);
      [apply (respects_get_this _ keeps_steady_refl)|intros; apply _show_steady].
  - apply (respects_bind _ keeps_steady_trans); [apply _hide_steady|by intros].
  - apply (respects_bind _ keeps_steady_trans); [|by intros].
    unfold toggle. apply (respects_bind _ keeps_steady_trans);
      [apply (respects_get_this _ keeps_steady_refl)|].
    intros t. destruct (_isOpen t); [apply _hide_steady|].
    unfold show. apply (respects_bind _ keeps_steady_trans);
      [apply (respects_get_this _ keeps_steady_refl)|intros; apply _show_steady].
  - apply (respects_bind _ keeps_steady_trans); [apply _dispose_steady|by intros].
  - unfold dispatchEvent.
    apply (respects_bind _ keeps_steady_trans); [apply (respects_get _ keeps_steady_refl)|].
    intros s. apply invoke_listeners_steady.
  - unfold fire_timer.
    apply (respects_bind _ keeps_steady_trans); [apply (respects_get _ keeps_steady_refl)|].
    intros s. destruct (timers (window s) !! i) as [[ms callback]|]; [|by apply Hret].
    apply (respects_bind _ keeps_steady_trans).
    + apply respects_modify. intros x [Hc Hs]. split.
      * by apply (evolves_consistent _ _
                    (benign_evolves _ _ (benign_timers x x _ (benign_refl x)))).
      * done.
    + intros ?. apply respects_reported, call_timer_steady.
Qed.

Lemma after_steady actions : forall s, steady s -> steady (after actions s).
Proof.
  induction actions as [|a actions IH]; intros s Hs; simpl; [done|].
  apply IH. by apply perform_steady.
Qed.

Lemma new_Tooltip_steady r user w : steady (new_Tooltip r user w).
Proof.
  pose proof (new_Tooltip_binding r user w) as Hb. split.
  - by eapply binding_consistent.
  - intros n Hn. rewrite (binding_node _ _ _ Hb) in Hn. done.
Qed.

(** What holds, with [reachable], of every state a controller reaches. *)
Lemma reachable_steady r user w actions : steady (after actions (new_Tooltip r user w)).
Proof. apply after_steady, new_Tooltip_steady. Qed.

(** * More properties of the class *)

(** ** Visible state *)

(** X1: in every state a controller reaches, a floating node has
    [display] empty when the controller is open and "none" when it is
    closed. *)
Theorem displayed_iff_open r user w actions :
  let s := after actions (new_Tooltip r user w) in
  forall n, _tooltipNode (this s) = Elem n ->
            display_of s n = if _isOpen (this s) then "" else "none".
Proof. intros s. apply (reachable_steady r user w actions). Qed.

Lemma displayed_iff_open_witness :
  display_of (after [CallShow; CallHide] (new_Tooltip 2 no_options page)) 4 = "none".
Proof.
  apply (displayed_iff_open 2 no_options page [CallShow; CallHide] 4). reflexivity.
Defined.

(** [hide] on an open controller with a floating node. *)
Lemma hide_open_node s n :
  _isOpen (this s) = true -> _tooltipNode (this s) = Elem n ->
  hide s = (Normal ReturnsThis,
            on_elements (alter (set_style_display "none") n) (on_this (set_isOpen false) s)).
Proof.
  intros Hopen Hn.
  unfold hide, _hide, bind, get_this, get, ret, modify, style_display_assign. simpl.
  by rewrite Hopen, Hn.
Qed.

(** [show] on a closed controller with a floating node and a handle. *)
Lemma show_closed_node s n p :
  _isOpen (this s) = false -> _tooltipNode (this s) = Elem n ->
  popperInstance (this s) = Some p ->
  show s = (Normal ReturnsThis,
            on_window (fun w => set_poppers (alter (fun i =>
                mkPopper (popper_reference i) (popper_floating i) (popper_options i)
                         (S (popper_updates i)) (popper_destroyed i)) p (poppers w)) w)
              (on_elements (alter (set_style_display "") n) (on_this (set_isOpen true) s))).
Proof.
  intros Hopen Hn Hp.
  unfold show, _show, bind, get_this, get, ret, modify, style_display_assign,
    popper_update. simpl. by rewrite Hopen, Hn, Hp.
Qed.

(** A consistent state with a floating node has it allocated and holds a
    live handle. *)
Lemma consistent_node s n :
  consistent s -> _tooltipNode (this s) = Elem n ->
  n < length (elements (window s)) /\
  exists p i, popperInstance (this s) = Some p /\ poppers (window s) !! p = Some i /\
              popper_destroyed i = false.
Proof.
  intros [Hat Hnh] Hn. split; [by apply element_allocated, Hat|].
  destruct Hnh as [Hlive _]. specialize (Hlive (ex_intro _ n Hn)).
  unfold handle_live, live in Hlive.
  destruct (popperInstance (this s)) as [p|]; [|done].
  destruct (poppers (window s) !! p) as [i|] eqn:Hi; [|done].
  exists p, i. repeat split; try done. by destruct (popper_destroyed i).
Qed.

Lemma alter_display_back els n d :
  style_display (element_at els n) = d ->
  alter (set_style_display d) n (alter (set_style_display "none") n els) = els.
Proof.
  intros Hd. rewrite list_alter_alter_eq.
  apply list_eq. intros m. destruct (decide (n = m)) as [->|Hne].
  - rewrite list_lookup_alter_eq. unfold element_at in Hd.
    destruct (els !! m) as [[]|]; simpl in *; [by subst|done].
  - by rewrite list_lookup_alter_ne.
Qed.

(** X2: in every state a controller reaches open and with a floating
    node, [hide()] returns the controller, closes it and sets [display] of
    the node to "none", keeping the node where it is and its handle
    alive; a [show()] after it returns the controller and restores the
    controller and every element exactly, at the cost of one [update()] of
    the handle. *)
Theorem hide_then_show_restores r user w actions n :
  let s := after actions (new_Tooltip r user w) in
  _isOpen (this s) = true ->
  _tooltipNode (this s) = Elem n ->
  let s1 := (hide s).2 in
  let s2 := (show s1).2 in
  ((hide s).1 = Normal ReturnsThis /\
   _isOpen (this s1) = false /\
   _tooltipNode (this s1) = Elem n /\
   display_of s1 n = "none" /\
   parent_of s1 n = parent_of s n /\
   handle_live s1 = true) /\
  ((show s1).1 = Normal ReturnsThis /\
   this s2 = this s /\
   elements (window s2) = elements (window s) /\
   timers (window s2) = timers (window s) /\
   exists p i, popperInstance (this s) = Some p /\
               poppers (window s) !! p = Some i /\
               poppers (window s2) =
                 <[p := mkPopper (popper_reference i) (popper_floating i) (popper_options i)
                                 (S (popper_updates i)) false]> (poppers (window s))).
Proof.
  intros s Hopen Hn s1 s2.
  destruct (reachable_steady r user w actions) as [Hc Hs]. fold s in Hc, Hs.
  destruct (consistent_node s n Hc Hn) as (Hlt & p & i & Hp & Hi & Hlive).
  pose proof (Hs n Hn) as Hd. rewrite Hopen in Hd.
  subst s2 s1. rewrite (hide_open_node s n Hopen Hn). simpl.
  rewrite (show_closed_node _ n p) by done. simpl.
  split.
  - repeat split; try done.
    + unfold display_of. simpl. by rewrite element_at_alter_eq.
    + unfold parent_of. simpl. by rewrite (element_at_alter_field parentNode).
    + unfold handle_live, live. simpl. rewrite Hp, Hi. by rewrite Hlive.
  - split; [done|]. split.
    { destruct (this s) eqn:Ht. simpl in *. by subst. }
    split; [by apply alter_display_back|]. split; [done|].
    exists p, i. repeat split; try done.
    apply list_eq. intros q. destruct (decide (p = q)) as [->|Hne].
    + rewrite list_lookup_alter_eq, list_lookup_insert_eq by (by eapply lookup_lt_Some).
      rewrite Hi. simpl. by rewrite Hlive.
    + by rewrite list_lookup_alter_ne, list_lookup_insert_ne.
Qed.

Lemma hide_then_show_restores_witness :
  elements (window (show (hide (after [CallShow] (new_Tooltip 2 no_options page))).2).2)
  = elements (window (after [CallShow] (new_Tooltip 2 no_options page))).
Proof.
  pose proof (hide_then_show_restores 2 no_options page [CallShow] 4) as H.
  cbv zeta in H. destruct H as [_ (_ & _ & He & _)]; [reflexivity|reflexivity|exact He].
Defined.

(** X3: in every state a controller reaches with a floating node, two
    calls of [toggle()] both return the controller and lead back to a
    controller that is as open as before, with the same floating node and
    the same elements. *)
Theorem toggle_twice_returns r user w actions n :
  let s := after actions (new_Tooltip r user w) in
  _tooltipNode (this s) = Elem n ->
  let s1 := (toggle s).2 in
  let s2 := (toggle s1).2 in
  (toggle s).1 = Normal ReturnsThis /\
  (toggle s1).1 = Normal ReturnsThis /\
  _isOpen (this s1) = negb (_isOpen (this s)) /\
  this s2 = this s /\
  elements (window s2) = elements (window s).
Proof.
  intros s Hn s1 s2.
  destruct (reachable_steady r user w actions) as [Hc Hs]. fold s in Hc, Hs.
  destruct (consistent_node s n Hc Hn) as (Hlt & p & i & Hp & Hi & Hlive).
  pose proof (Hs n Hn) as Hd.
  assert (Htoggle : forall x, toggle x = if _isOpen (this x) then hide x else show x).
  { intros x. unfold toggle, bind, get_this, get, ret. simpl. by destruct (_isOpen (this x)). }
  subst s2 s1. rewrite !Htoggle.
  destruct (_isOpen (this s)) eqn:Hopen.
  - rewrite (hide_open_node s n Hopen Hn). simpl.
    rewrite (show_closed_node _ n p) by done. simpl.
    repeat split; try done.
    + destruct (this s) eqn:Ht. simpl in *. by subst.
    + by apply alter_display_back.
  - rewrite (show_closed_node s n p) by done. simpl.
    rewrite (hide_open_node _ n) by done. simpl.
    repeat split; try done.
    + destruct (this s) eqn:Ht. simpl in *. by subst.
    + rewrite list_alter_alter_eq.
      apply list_eq. intros m. destruct (decide (n = m)) as [->|Hne].
      * rewrite list_lookup_alter_eq. unfold display_of, element_at in Hd.
        destruct (elements (window s) !! m) as [[]|]; simpl in *; [by subst|done].
      * by rewrite list_lookup_alter_ne.
Qed.

Lemma toggle_twice_returns_witness :
  this (toggle (toggle (after [CallShow] (new_Tooltip 2 no_options page))).2).2
  = this (after [CallShow] (new_Tooltip 2 no_options page)).
Proof.
  pose proof (toggle_twice_returns 2 no_options page [CallShow] 4) as H.
  cbv zeta in H. destruct H as (_ & _ & _ & Ht & _); [reflexivity|exact Ht].
Defined.

(** ** Errors *)

(** X4: [hide()] throws exactly when the controller is open and has no
    floating node, and what it throws is a TypeError; in every other state
    it returns the controller. *)
Theorem hide_throws_iff s :
  ((hide s).1 = Throw TypeError <->
   _isOpen (this s) = true /\ forall n, _tooltipNode (this s) <> Elem n) /\
  ((hide s).1 = Normal ReturnsThis <->
   _isOpen (this s) = false \/ exists n, _tooltipNode (this s) = Elem n) /\
  (hide s).1 <> Throw HierarchyRequestError.
Proof.
  unfold hide, _hide, bind, get_this, get, ret, modify, throw, style_display_assign. simpl.
  destruct (_isOpen (this s)); simpl;
    destruct (_tooltipNode (this s)) as [| |n]; simpl.
  all: repeat split; try done; try (by intros [? ?]); try (by left); try (by right; eauto).
  all: try (intros [?|[? ?]]; done).
  all: try (by intros [_ H]; destruct (H n)).
Qed.

(** X5: the callback that [_scheduleHide] hands to the timer never throws,
    in any state; when the controller is closed or its floating node is not
    in the document it changes nothing. *)
Theorem hide_timer_never_throws r d o evt s :
  (hide_timer_body r d o evt s).1 = Normal tt /\
  (_isOpen (this s) = false \/
   contains (elements (window s)) (document_body (window s)) (_tooltipNode (this s)) = false ->
   (hide_timer_body r d o evt s).2 = s).
Proof.
  split.
  - change (wp (hide_timer_body r d o evt) (fun res _ => res = Normal tt) s).
    unfold hide_timer_body, _setTooltipNodeEvent, _isElOrChildOfEl, _hide.
    wp_steps; simpl in *; try done; try congruence.
    all: match goal with
         | H : negb (contains _ _ ?node) = false, Hn : ?node = _ |- _ =>
             rewrite Hn in H; done
         end.
  - intros Hguard.
    unfold hide_timer_body, body_contains, bind, get_this, get, ret. simpl.
    destruct (_isOpen (this s)); simpl; [|done].
    destruct Hguard as [Hclosed | Hout]; [done|]. by rewrite Hout.
Qed.

Lemma hide_timer_never_throws_witness :
  (hide_timer_body 2 (DelayNumber 0) DEFAULT_OPTIONS leave_to_body
     (new_Tooltip 2 no_options page)).2 = new_Tooltip 2 no_options page.
Proof.
  apply (hide_timer_never_throws 2 (DelayNumber 0) DEFAULT_OPTIONS leave_to_body).
  left. reflexivity.
Defined.

(** ** Delays *)

(** A delay past the range of a [long] wraps around: 2^31 ms arm a timer
    without delay, 2^32 + 7 ms one of 7 ms. *)
Example delays_wrap_around :
  timeout_ms (DelayNumber 2147483648) = 0%Z /\
  timeout_ms (DelayNumber 4294967303) = 7%Z /\
  timeout_ms (DelayNumber (-5)) = 0%Z.
Proof. by vm_compute. Qed.

Lemma to_long_in_range z : (0 <= z < 2 ^ 31)%Z -> to_long z = z.
Proof.
  intros Hz. unfold to_long. cbv zeta.
  rewrite Z.mod_small by lia. by case_decide; [|lia].
Qed.

(** X6: with a delay that is a whole number of milliseconds from 0 to
    2^31 - 1, or a pair of such numbers, [_scheduleShow] arms one timer
    that runs after the number or after the [show] field, and
    [_scheduleHide] one timer that runs after the number or after the
    [hide] field; a field that is 0 gives a timer without delay.  Neither
    changes anything else. *)
Theorem timers_carry_delays r d o evt s :
  match d with
  | DelayNumber ms => (0 <= ms < 2 ^ 31)%Z
  | DelayObject show hide => (0 <= show < 2 ^ 31)%Z /\ (0 <= hide < 2 ^ 31)%Z
  end ->
  _scheduleShow r d o s =
    (Normal tt,
     on_window (fun w => set_timers
       (timers w ++ [(match d with DelayNumber ms => ms | DelayObject show _ => show end,
                      ShowTimer)]) w) s) /\
  _scheduleHide r d o evt s =
    (Normal tt,
     on_window (fun w => set_timers
       (timers w ++ [(match d with DelayNumber ms => ms | DelayObject _ hide => hide end,
                      HideTimer evt)]) w) s).
Proof.
  intros Hd. unfold _scheduleShow, _scheduleHide, setTimeout, modify,
    computedDelay_show, computedDelay_hide, timeout_ms.
  destruct d as [ms|sh hi]; repeat case_decide; subst;
    rewrite ?to_long_in_range by lia; rewrite ?Z.max_r by lia; done.
Qed.

Lemma timers_carry_delays_witness :
  timers (window (_scheduleShow 2 (DelayObject 300 100) DEFAULT_OPTIONS
                    (new_Tooltip 2 no_options page)).2)
  = [(300%Z, ShowTimer)].
Proof.
  pose proof (timers_carry_delays 2 (DelayObject 300 100) DEFAULT_OPTIONS leave_to_body
                (new_Tooltip 2 no_options page)) as [Hs _].
  - vm_compute. by repeat split; intros.
  - rewrite Hs. reflexivity.
Defined.

(** ** The constructor *)

Lemma wiring_refl s : wiring s s.
Proof. by constructor. Qed.

Lemma wiring_trans s x s' : wiring s x -> wiring x s' -> wiring s s'.
Proof.
  intros [] []. constructor; congruence.
Qed.

Ltac wiring_write :=
  constructor; simpl; rewrite ?length_alter; try reflexivity; intros;
  unfold parent_of; simpl; apply (element_at_alter_field parentNode);
  intros; repeat case_decide; reflexivity.

Lemma listen_direct_wiring r events : respects wiring (listen_direct r events).
Proof.
  induction events as [|e events IH]; simpl.
  - apply (respects_ret _ wiring_refl).
  - respects_go wiring_refl wiring_trans wiring_write.
Qed.

Lemma listen_opposite_wiring r events : respects wiring (listen_opposite r events).
Proof.
  induction events as [|e events IH]; simpl.
  - apply (respects_ret _ wiring_refl).
  - respects_go wiring_refl wiring_trans wiring_write.
Qed.

(** What the first loop of [_setEventListeners] records. *)
Lemma listen_direct_records r events : forall s,
  wp (listen_direct r events) (fun res s' =>
    res = Normal tt /\
    _events (this s') =
      _events (this s)
      ++ imap (fun i e => (event_name e, DirectHandler (functions (window s) + i))) events /\
    functions (window s') = functions (window s) + length events) s.
Proof.
  induction events as [|e events IH]; intros s; simpl.
  - apply wp_ret. by rewrite app_nil_r, Nat.add_0_r.
  - wp_steps. eapply wp_mono; [apply IH|].
    cbv beta. intros ? s' (-> & He & Hf). simpl in He, Hf. rewrite He, Hf.
    split; [done|]. split; [|lia].
    rewrite <- app_assoc. simpl. rewrite Nat.add_0_r. do 2 f_equal.
    apply imap_ext. intros i x _. simpl. do 2 f_equal. lia.
Qed.

(** What its second loop records. *)
Lemma listen_opposite_records r events : forall s,
  wp (listen_opposite r events) (fun res s' =>
    res = Normal tt /\
    _events (this s') =
      _events (this s)
      ++ imap (fun i e => (e, OppositeHandler (functions (window s) + i))) events /\
    functions (window s') = functions (window s) + length events) s.
Proof.
  induction events as [|e events IH]; intros s; simpl.
  - apply wp_ret. by rewrite app_nil_r, Nat.add_0_r.
  - wp_steps. eapply wp_mono; [apply IH|].
    cbv beta. intros ? s' (-> & He & Hf). simpl in He, Hf. rewrite He, Hf.
    split; [done|]. split; [|lia].
    rewrite <- app_assoc. simpl. rewrite Nat.add_0_r. do 2 f_equal.
    apply imap_ext. intros i x _. simpl. do 2 f_equal. lia.
Qed.

Lemma trigger_events_known t e :
  e ∈ trigger_events t -> e = "click" \/ e = "hover" \/ e = "focus".
Proof.
  destruct t as [s|]; simpl; [|by intros ?%elem_of_nil].
  intros [He _]%list_elem_of_filter.
  repeat (apply elem_of_cons in He as [->|He]); auto. by apply elem_of_nil in He.
Qed.

(** For recognised tokens neither switch of [_setEventListeners] reaches
    its default case, and the filter on the opposite events drops
    nothing. *)
Lemma recognised_events t :
  let tokens := trigger_events t in
  map event_name (map direct_event tokens) = omap direct_event tokens /\
  omap (fun e => match opposite_event e with
                 | Some name => if decide (name = "") then None else Some name
                 | None => None
                 end) tokens = omap opposite_event tokens /\
  length (omap direct_event tokens) = length tokens /\
  length (omap opposite_event tokens) = length tokens /\
  Forall (fun e => e ∈ listened_events)
         (omap direct_event tokens ++ omap opposite_event tokens).
Proof.
  intros tokens. pose proof (trigger_events_known t) as Hknown. fold tokens in Hknown.
  induction tokens as [|e tokens IH]; [by repeat split; try apply Forall_nil|].
  destruct IH as (H1 & H2 & H3 & H4 & H5).
  { intros e' He'. apply Hknown. by right. }
  apply Forall_app in H5 as [H5 H6].
  destruct (Hknown e) as [->|[->| ->]]; [by left|..]; csimpl;
    rewrite ?H1, ?H2, ?H3, ?H4; repeat split; try done.
  all: constructor; [apply list_elem_of_In; simpl; tauto|].
  all: apply Forall_app; split; [done|].
  all: constructor; [apply list_elem_of_In; simpl; tauto|done].
Qed.

(** X7: the constructor stores the reference and the user's options over
    the defaults, leaves the controller closed without floating node or
    handle, and records, in the order of the recognised tokens of
    [trigger], first one new function per token under its direct event,
    then one under its opposite event; every recorded name is an event
    name, never [undefined].  It arms no timer and creates no element or
    instance. *)
Theorem constructor_binds_triggers r user w :
  let s0 := new_Tooltip r user w in
  let o := assign_options DEFAULT_OPTIONS user in
  let tokens := trigger_events (trigger o) in
  (reference (this s0) = r /\ options (this s0) = o /\ _isOpen (this s0) = false /\
   _tooltipNode (this s0) = Undefined /\ popperInstance (this s0) = None) /\
  _events (this s0) =
    imap (fun i e => (e, DirectHandler (functions w + i))) (omap direct_event tokens)
    ++ imap (fun i e => (e, OppositeHandler (functions w + length tokens + i)))
            (omap opposite_event tokens) /\
  length (_events (this s0)) = 2 * length tokens /\
  Forall (fun l => l.1 ∈ listened_events) (_events (this s0)) /\
  (timers (window s0) = timers w /\ poppers (window s0) = poppers w /\
   length (elements (window s0)) = length (elements w) /\
   functions (window s0) = functions w + 2 * length tokens).
Proof.
  intros s0 o tokens.
  destruct (recognised_events (trigger o)) as (Hd & Ho & Hld & Hlo & Hnames).
  fold tokens in Hd, Ho, Hld, Hlo, Hnames.
  assert (Hrun : wp (constructor user) (fun _ s' =>
    (reference (this s') = r /\ options (this s') = o /\ _isOpen (this s') = false /\
     _tooltipNode (this s') = Undefined /\ popperInstance (this s') = None) /\
    _events (this s') =
      imap (fun i e => (e, DirectHandler (functions w + i))) (omap direct_event tokens)
      ++ imap (fun i e => (e, OppositeHandler (functions w + length tokens + i)))
              (omap opposite_event tokens) /\
    (timers (window s') = timers w /\ poppers (window s') = poppers w /\
     length (elements (window s')) = length (elements w) /\
     functions (window s') = functions w + 2 * length tokens))
    (mkState (mkTooltip r DEFAULT_OPTIONS false Undefined None []) w)).
  { unfold constructor, _setEventListeners. wp_steps. fold o tokens.
    rewrite Ho. simpl reference.
    eapply wp_mono;
      [apply wp_and; [apply listen_direct_records|apply wp_respects, listen_direct_wiring]|].
    cbv beta. intros ? s1 [(-> & He1 & Hf1) []]; simpl in *.
    eapply wp_mono;
      [apply wp_and; [apply listen_opposite_records|apply wp_respects, listen_opposite_wiring]|].
    cbv beta. intros ? s2 [(-> & He2 & Hf2) []]; simpl in *.
    rewrite length_map in Hf1.
    repeat split; try congruence.
    - rewrite He2, He1, Hf1, <- Hd, !imap_fmap. done.
    - rewrite Hf2, Hf1, Hlo. lia. }
  unfold wp in Hrun. fold (new_Tooltip r user w) in Hrun. fold s0 in Hrun.
  destruct Hrun as (Hthis & Hev & Hwin).
  split; [done|]. split; [done|]. split.
  { rewrite Hev, length_app, !length_imap, Hld, Hlo. lia. }
  split; [|done].
  rewrite Hev. apply Forall_app in Hnames as [Hn1 Hn2].
  apply Forall_app. split; apply Forall_forall; intros [ev f] Hin;
    apply list_elem_of_In, elem_of_lookup_imap in Hin as (i & e & [= -> ->] & Hi); simpl.
  - eapply Forall_forall in Hn1; [done|].
    by eapply list_elem_of_In, list_elem_of_lookup_2.
  - eapply Forall_forall in Hn2; [done|].
    by eapply list_elem_of_In, list_elem_of_lookup_2.
Qed.

Lemma new_Tooltip_options r user w :
  options (this (new_Tooltip r user w)) = assign_options DEFAULT_OPTIONS user.
Proof.
  unfold new_Tooltip.
  set (s := mkState _ w).
  change (wp (constructor user) (fun _ s' =>
    options (this s') = assign_options DEFAULT_OPTIONS user) s).
  unfold constructor, _setEventListeners. wp_steps.
  eapply wp_mono; [apply wp_respects, listen_direct_wiring|].
  cbv beta. intros [?|?] s1 H1; [|by rewrite (wiring_options _ _ H1)].
  eapply wp_mono; [apply wp_respects, listen_opposite_wiring|].
  cbv beta. intros ? s2 H2. by rewrite (wiring_options _ _ H2), (wiring_options _ _ H1).
Qed.

(** X8: whatever is called on a controller, whatever event reaches its
    listeners and whatever timer fires, its reference and its options stay
    what the constructor stored. *)
Theorem reference_and_options_fixed r user w actions :
  let s := after actions (new_Tooltip r user w) in
  reference (this s) = r /\
  options (this s) = assign_options DEFAULT_OPTIONS user.
Proof.
  intros s. destruct (after_evolves actions (new_Tooltip r user w)) as [Hr Ho _ _].
  fold s in Hr, Ho. split.
  - rewrite Hr. apply (binding_reference _ _ _ (new_Tooltip_binding r user w)).
  - rewrite Ho. apply new_Tooltip_options.
Qed.

(** ** One click, one timer *)

(** X9: a controller whose reference carries the two listeners of a click
    trigger reacts to a click that no listener has marked by arming exactly
    one timer: a show timer when it is closed, a hide timer holding the
    event when it is open.  Nothing else changes. *)
Theorem click_arms_one_timer r user w actions evt a b :
  r < length (elements w) ->
  listeners_of (new_Tooltip r user w) r
    = [("click", DirectHandler a); ("click", OppositeHandler b)] ->
  type evt = "click" ->
  usedByTooltip evt = false ->
  let s := after actions (new_Tooltip r user w) in
  let d := delay (options (this s)) in
  (dispatchEvent r evt s).1 = Normal tt /\
  (dispatchEvent r evt s).2 =
    on_window (fun w => set_timers
      (timers w ++ [if _isOpen (this s)
                    then (timeout_ms (computedDelay_hide d), HideTimer evt)
                    else (timeout_ms (computedDelay_show d), ShowTimer)]) w) s.
Proof.
  intros Hr Hl Htype Hused s d.
  destruct (reachable r user w actions) as (_ & _ & Hrest).
  destruct (Hrest Hr) as (_ & Hsame & _). fold s in Hsame. rewrite Hl in Hsame.
  unfold listeners_of in Hsame.
  assert (Hneq : ("click", DirectHandler a) <> ("click", OppositeHandler b)) by done.
  assert (Hin1 : ("click", DirectHandler a)
                 ∈ [("click", DirectHandler a); ("click", OppositeHandler b)])
    by (apply list_elem_of_In; simpl; tauto).
  assert (Hin2 : ("click", OppositeHandler b)
                 ∈ [("click", DirectHandler a); ("click", OppositeHandler b)])
    by (apply list_elem_of_In; simpl; tauto).
  change (wp (dispatchEvent r evt) (fun res s' =>
    res = Normal tt /\
    s' = on_window (fun w => set_timers
           (timers w ++ [if _isOpen (this s)
                         then (timeout_ms (computedDelay_hide d), HideTimer evt)
                         else (timeout_ms (computedDelay_show d), ShowTimer)]) w) s) s).
  unfold dispatchEvent. apply wp_bind, wp_get. rewrite Hsame, Htype.
  rewrite !filter_cons, filter_nil, !decide_True by done.
  cbn [invoke_listeners snd].
  apply wp_bind, wp_get. rewrite Hsame, decide_True by done.
  apply wp_bind, wp_reported. unfold call_listener at 1.
  apply wp_bind, wp_get_this.
  destruct (_isOpen (this s)) eqn:Hopen.
  - apply wp_ret. apply wp_bind, wp_get. rewrite Hsame, decide_True by done.
    apply wp_bind, wp_reported. unfold call_listener, _scheduleHide, setTimeout.
    apply wp_bind, wp_get_this. rewrite Hused.
    apply wp_bind, wp_modify, wp_ret, wp_ret. done.
  - unfold _scheduleShow, setTimeout.
    apply wp_bind, wp_modify, wp_ret.
    apply wp_bind, wp_get. simpl. rewrite Hsame, decide_True by done.
    apply wp_bind, wp_reported. unfold call_listener.
    apply wp_bind, wp_get_this. simpl.
    apply wp_ret, wp_ret. done.
Qed.

Lemma click_arms_one_timer_witness :
  timers (window (dispatchEvent 2 click (new_Tooltip 2 click_trigger page)).2)
  = [(0%Z, ShowTimer)].
Proof.
  pose proof (click_arms_one_timer 2 click_trigger page [] click 0 1) as H.
  cbv zeta in H.
  destruct H as [_ H]; [vm_compute; lia | reflexivity | reflexivity | reflexivity |].
  change (after [] (new_Tooltip 2 click_trigger page))
    with (new_Tooltip 2 click_trigger page) in H.
  rewrite H. reflexivity.
Defined.

(** ** Showing and hiding touch no listener and no timer *)

Lemma passive_refl s : passive s s.
Proof. by constructor. Qed.

Lemma passive_trans s x s' : passive s x -> passive x s' -> passive s s'.
Proof. intros [] []. constructor; congruence. Qed.

Ltac passive_write :=
  constructor; simpl; try reflexivity; intros;
  unfold listeners_of; simpl; rewrite ?element_at_snoc_blank;
  first [ reflexivity | apply (element_at_alter_field listeners); reflexivity ].

Lemma _show_passive r o : respects passive (_show r o).
Proof.
  unfold _show, _create, assign_innerHTML, assign_content, _append, appendChild.
  respects_go passive_refl passive_trans passive_write.
Qed.

Lemma _hide_passive : respects passive _hide.
Proof. unfold _hide. respects_go passive_refl passive_trans passive_write. Qed.

(** X10: in any state, [show()], [hide()] and [toggle()] register and
    remove no listener on any element, record none, arm no timer and
    create no function, whether they return or throw. *)
Theorem show_hide_toggle_are_passive s :
  passive s (show s).2 /\ passive s (hide s).2 /\ passive s (toggle s).2.
Proof.
  assert (Hshow : respects passive show).
  { unfold show. apply (respects_bind _ passive_trans);
      [apply (respects_get_this _ passive_refl)|intros; apply _show_passive]. }
  split; [apply Hshow|]. split; [apply _hide_passive|].
  unfold toggle. apply (respects_bind _ passive_trans);
    [apply (respects_get_this _ passive_refl)|].
  intros t. destruct (_isOpen t); [apply _hide_passive|apply Hshow].
Qed.

(** ** Disposing *)

Lemma remove_recorded_wiring n l : respects wiring (remove_recorded n l).
Proof.
  induction l as [|[event func] l IH]; simpl.
  - apply (respects_ret _ wiring_refl).
  - respects_go wiring_refl wiring_trans wiring_write.
Qed.

(** [_hide] in a steady state with a floating node. *)
Lemma _hide_closes s n :
  steady s -> _tooltipNode (this s) = Elem n ->
  wp _hide (fun res s' =>
    res = Normal ReturnsThis /\ wiring s (on_this (set_isOpen (_isOpen (this s))) s') /\
    _isOpen (this s') = false /\ display_of s' n = "none") s.
Proof.
  intros [Hc Hs] Hn.
  destruct (consistent_node s n Hc Hn) as (Hlt & _).
  unfold wp. destruct (_isOpen (this s)) eqn:Hopen.
  - change _hide with hide. rewrite (hide_open_node s n Hopen Hn). simpl.
    repeat split; try done.
    + simpl. by rewrite length_alter.
    + intros m. unfold parent_of. simpl. by apply (element_at_alter_field parentNode).
    + unfold display_of. simpl. by rewrite element_at_alter_eq.
  - unfold _hide, bind, get_this, get, ret. simpl. rewrite Hopen. simpl.
    repeat split; try done. specialize (Hs n Hn). by rewrite Hopen in Hs.
Qed.

(** [dispose] in a steady state with a floating node. *)
Lemma dispose_node_spec s n :
  steady s ->
  _tooltipNode (this s) = Elem n ->
  let s' := (dispose s).2 in
  (dispose s).1 = Normal ReturnsThis /\
  _isOpen (this s') = false /\
  _tooltipNode (this s') = Null /\
  _events (this s') = [] /\
  display_of s' n = "none" /\
  parent_of s' n = None /\
  handle_live s' = false /\
  length (elements (window s')) = length (elements (window s)) /\
  length (poppers (window s')) = length (poppers (window s)) /\
  timers (window s') = timers (window s) /\
  (forall m, m <> n -> parent_of s' m = parent_of s m).
Proof.
  intros Hst Hn s'.
  destruct (consistent_node s n (proj1 Hst) Hn) as (Hlt & p & i & Hp & Hi & Hlive).
  destruct (node_attached _ (proj1 Hst) n Hn) as [c Hc].
  change (wp dispose (fun res s' =>
    res = Normal ReturnsThis /\ _isOpen (this s') = false /\
    _tooltipNode (this s') = Null /\ _events (this s') = [] /\
    display_of s' n = "none" /\ parent_of s' n = None /\ handle_live s' = false /\
    length (elements (window s')) = length (elements (window s)) /\
    length (poppers (window s')) = length (poppers (window s)) /\
    timers (window s') = timers (window s) /\
    (forall m, m <> n -> parent_of s' m = parent_of s m)) s).
  unfold dispose, _dispose. apply wp_bind, wp_get_this. rewrite Hn, Hp.
  apply wp_bind. eapply wp_mono; [by apply (_hide_closes s n)|].
  cbv beta. intros ? x1 (-> & [] & Hopen1 & Hd1). simpl in *.
  apply wp_bind. unfold popper_destroy at 1. apply wp_modify.
  apply wp_bind.
  eapply wp_mono.
  { apply wp_and; [|apply wp_and].
    - eapply (remove_recorded_benign n); [|apply benign_refl]. simpl. congruence.
    - apply wp_respects, (remove_recorded_wiring n).
    - apply wp_respects, (remove_recorded_calm n). }
  cbv beta. intros res x3 [[Hres _] [[] [Hopen3 _ Hd3]]]. simpl in *.
  subst res.
  apply wp_bind, wp_modify. unfold get_parentNode. apply wp_bind, wp_bind, wp_get, wp_ret.
  simpl.
  assert (Hpar : parentNode (element_at (elements (window x3)) n) = Some c).
  { specialize (wiring_parents1 n). specialize (wiring_parents0 n).
    unfold parent_of in *. simpl in *. congruence. }
  rewrite Hpar. unfold removeChild. apply wp_bind, wp_modify. apply wp_bind, wp_modify.
  apply wp_ret. simpl.
  repeat split; try congruence.
  - unfold display_of in *. simpl.
    rewrite (element_at_alter_field style_display) by done.
    rewrite Hd3. done.
  - unfold parent_of. simpl. rewrite element_at_alter_eq by congruence. done.
  - unfold handle_live. simpl. rewrite wiring_handle1, wiring_handle0, Hp.
    rewrite wiring_poppers1. simpl. rewrite wiring_poppers0. by apply live_destroyed.
  - rewrite length_alter. congruence.
  - rewrite wiring_poppers1. simpl. rewrite length_alter. congruence.
  - intros m Hm. specialize (wiring_parents1 m). specialize (wiring_parents0 m).
    unfold parent_of in *. simpl in *.
    rewrite element_at_alter_ne by done. congruence.
Qed.

(** X11: in every state a controller reaches with a floating node,
    [dispose()] returns the controller closed, with the node hidden,
    taken out of its parent and forgotten, the handle destroyed and the
    record of listeners emptied; it creates no element and arms no
    timer. *)
Theorem dispose_tears_down r user w actions n :
  let s := after actions (new_Tooltip r user w) in
  _tooltipNode (this s) = Elem n ->
  let s' := (dispose s).2 in
  (dispose s).1 = Normal ReturnsThis /\
  _isOpen (this s') = false /\
  _tooltipNode (this s') = Null /\
  _events (this s') = [] /\
  display_of s' n = "none" /\
  parent_of s' n = None /\
  handle_live s' = false /\
  length (elements (window s')) = length (elements (window s)) /\
  timers (window s') = timers (window s).
Proof.
  intros s Hn s'.
  destruct (dispose_node_spec s n (reachable_steady r user w actions) Hn)
    as (H1 & H2 & H3 & H4 & H5 & H6 & H7 & H8 & _ & H9 & _).
  by repeat split.
Qed.

Lemma dispose_tears_down_witness :
  parent_of (dispose (after [CallShow] (new_Tooltip 2 no_options page))).2 4 = None.
Proof.
  pose proof (dispose_tears_down 2 no_options page [CallShow] 4) as H.
  cbv zeta in H. destruct H as (_ & _ & _ & _ & _ & Hp & _); [reflexivity|exact Hp].
Defined.

(** ** The first show *)



Section FirstShow.
#[local] Arguments contains : simpl never.


End FirstShow.




Section ElementTitle.
#[local] Arguments contains : simpl never.

(** X14: a title that is an element is inserted only when [html] is
    set: without it the first show leaves the element under the parent it
    had, and the inner node of the floating node stays empty. *)
Theorem element_title_needs_html s el :
  _isOpen (this s) = false ->
  (forall n, _tooltipNode (this s) <> Elem n) ->
  resolve_title (title_attribute (element_at (elements (window s)) (reference (this s))))
    (title (options (this s))) = TitleElement el ->
  html (options (this s)) = false ->
  el < length (elements (window s)) ->
  let s' := (show s).2 in
  parent_of s' el = parent_of s el /\
  inner (element_at (elements (window s')) (S (S (length (elements (window s)))))) = NoContent.
Proof.
  intros Hopen Hnode Httl Hhtml Hel s'.
  change (wp show (fun _ s' =>
    parent_of s' el = parent_of s el /\
    inner (element_at (elements (window s')) (S (S (length (elements (window s))))))
    = NoContent) s).
  unfold show, _show. apply wp_bind, wp_get_this. apply wp_bind, wp_get_this.
  rewrite Hopen. apply wp_bind, wp_modify.
  destruct (_tooltipNode (this s)) as [| |n] eqn:Hn; [| |by destruct (Hnode n)].
  all: unfold getAttribute_title; apply wp_bind, wp_bind, wp_get, wp_ret; simpl.
  all: rewrite Httl, Hhtml; simpl.
  all: unfold _create, assign_innerHTML, assign_content, _append, appendChild.
  all: wp_steps; simpl in *; unfold parent_of; simpl.
  all: rewrite ?length_alter, ?length_app in *; simpl length in *; rewrite ?Nat.add_1_r in *.
  all: rewrite ?length_alter, ?length_app in *; simpl length in *; rewrite ?Nat.add_1_r in *.
  all: simplify_eq.
  all: split.
  all: repeat first [ rewrite element_at_alter_eq by lengths; simpl
                    | rewrite element_at_alter_ne by lia
                    | rewrite element_at_snoc_blank ].
  all: try done.
  all: unfold element_at; by rewrite lookup_ge_None_2 by lia.
Qed.

End ElementTitle.

Lemma element_title_needs_html_witness :
  parent_of (show (new_Tooltip 2 element_title untitled_page)).2 0 = None /\
  inner (element_at (elements (window (show (new_Tooltip 2 element_title untitled_page)).2)) 5)
  = NoContent.
Proof.
  apply (element_title_needs_html (new_Tooltip 2 element_title untitled_page) 0).
  - reflexivity.
  - intros n. vm_compute. discriminate.
  - reflexivity.
  - reflexivity.
  - vm_compute. lia.
Defined.

(** X15: with a template that has no inner node, the first show of a text
    title throws a TypeError after [_isOpen] was set: the controller is
    left open, with no floating node and no handle. *)
Theorem template_without_inner_throws s text :
  _isOpen (this s) = false ->
  (forall n, _tooltipNode (this s) <> Elem n) ->
  template (options (this s)) <> WrapperWithInner ->
  title_falsy (resolve_title
    (title_attribute (element_at (elements (window s)) (reference (this s))))
    (title (options (this s)))) = false ->
  (resolve_title
     (title_attribute (element_at (elements (window s)) (reference (this s))))
     (title (options (this s))) = TitleString text \/
   exists f, resolve_title
     (title_attribute (element_at (elements (window s)) (reference (this s))))
     (title (options (this s))) = TitleFunction f /\ text = f (reference (this s))) ->
  let s' := (show s).2 in
  (show s).1 = Throw TypeError /\
  _isOpen (this s') = true /\
  _tooltipNode (this s') = _tooltipNode (this s) /\
  popperInstance (this s') = popperInstance (this s) /\
  poppers (window s') = poppers (window s).
Proof.
  intros Hopen Hnode Htpl Hfalsy Hshape s'.
  change (wp show (fun res s' =>
    res = Throw TypeError /\ _isOpen (this s') = true /\
    _tooltipNode (this s') = _tooltipNode (this s) /\
    popperInstance (this s') = popperInstance (this s) /\
    poppers (window s') = poppers (window s)) s).
  unfold show, _show. apply wp_bind, wp_get_this. apply wp_bind, wp_get_this.
  rewrite Hopen. apply wp_bind, wp_modify.
  destruct (_tooltipNode (this s)) as [| |n] eqn:Hn; [| |by destruct (Hnode n)].
  all: unfold getAttribute_title; apply wp_bind, wp_bind, wp_get, wp_ret; simpl.
  all: rewrite Hfalsy.
  all: unfold _create, assign_innerHTML, assign_content.
  all: destruct Hshape as [->|(f & -> & ->)].
  all: destruct (template (options (this s))); [| |done].
  all: wp_steps; simpl; by rewrite ?Hn.
Qed.

Lemma template_without_inner_throws_witness :
  (show (new_Tooltip 2 bare_template page)).1 = Throw TypeError.
Proof.
  apply (template_without_inner_throws (new_Tooltip 2 bare_template page) "Hi").
  - reflexivity.
  - intros n. vm_compute. discriminate.
  - discriminate.
  - reflexivity.
  - left. reflexivity.
Defined.

(** ** Showing after dispose *)









(** ** The pointer on the tooltip *)

(** X16: when the hide timer of a "mouseleave" fires on an open
    controller whose floating node is in the document, and the event's
    [toElement] (or [relatedreference]) is the floating node or an element
    below it, the callback returns without hiding: the controller stays
    open, no timer is armed, and a new function is registered on the
    floating node for the type of the event. *)
Theorem pointer_on_tooltip_keeps_open s n m evt :
  _isOpen (this s) = true ->
  _tooltipNode (this s) = Elem n ->
  n < length (elements (window s)) ->
  contains (elements (window s)) (document_body (window s)) (Elem n) = true ->
  type evt = "mouseleave" ->
  ref_or (relatedreference evt) (toElement evt) = Elem m ->
  contains (elements (window s)) n (Elem m) = true ->
  let s' := (call_timer (HideTimer evt) s).2 in
  (call_timer (HideTimer evt) s).1 = Normal tt /\
  _isOpen (this s') = true /\
  timers (window s') = timers (window s) /\
  (type evt, TransferCallback (functions (window s)) evt) ∈ listeners_of s' n.
Proof.
  intros Hopen Hn Hlt Hbody Htype Hrel Hin.
  change (call_timer (HideTimer evt) s)
    with (hide_timer_body (reference (this s)) (delay (options (this s)))
            (options (this s)) evt s).
  by apply (hide_timer_with_toElement s n m).
Qed.

Lemma pointer_on_tooltip_keeps_open_witness :
  _isOpen (this (call_timer (HideTimer leave_to_tooltip_legacy) open_tooltip).2) = true.
Proof.
  apply (pointer_on_tooltip_keeps_open open_tooltip 4 5 leave_to_tooltip_legacy);
    try reflexivity.
  vm_compute. lia.
Defined.

(** X17: the function that the hide timer registered on the floating node
    runs once: called with an event, it removes itself from the floating
    node and returns the event as it is; it arms one hide timer for that
    event when the event's [toElement] (or [relatedreference]) is neither
    the reference nor below it, and no timer otherwise.  It never opens or
    closes the controller itself. *)
Theorem transfer_listener_runs_once s n id evt evt2 :
  _tooltipNode (this s) = Elem n ->
  n < length (elements (window s)) ->
  let self := TransferCallback id evt in
  let s' := (call_listener self evt2 s).2 in
  let related := ref_or (relatedreference evt2) (toElement evt2) in
  (call_listener self evt2 s).1 = Normal evt2 /\
  ((type evt, self) ∉ listeners_of s' n) /\
  _isOpen (this s') = _isOpen (this s) /\
  timers (window s') =
    if bool_decide (related = Elem (reference (this s)))
       || contains (elements (window s)) (reference (this s)) related
    then timers (window s)
    else timers (window s)
         ++ [(timeout_ms (computedDelay_hide (delay (options (this s)))), HideTimer evt2)].
Proof.
  intros Hn Hlt self s' related.
  pose proof (transfer_callback_once s n self evt evt2 (reference (this s))
                (options (this s)) Hn Hlt) as (H1 & H2 & H3 & H4).
  assert (Hrun : call_listener self evt2 s =
            (Normal evt2,
             (transfer_callback_body self evt (reference (this s)) (options (this s))
                evt2 s).2)).
  { unfold call_listener, bind, get_this, get, ret. simpl.
    destruct (transfer_callback_body self evt (reference (this s)) (options (this s))
                evt2 s) as [[[]|e] x] eqn:Hb; simpl in *; [done|done]. }
  subst s'. rewrite Hrun. by repeat split.
Qed.

Lemma transfer_listener_runs_once_witness :
  timers (window (call_listener (TransferCallback 4 leave_to_tooltip_legacy) leave_to_body
                    (after [Dispatch 2 leave_to_tooltip_legacy; Fire 0] open_tooltip)).2)
  = [(0%Z, HideTimer leave_to_body)].
Proof.
  pose proof (transfer_listener_runs_once
                (after [Dispatch 2 leave_to_tooltip_legacy; Fire 0] open_tooltip) 4 4
                leave_to_tooltip_legacy leave_to_body) as H.
  cbv zeta in H. destruct H as (_ & _ & _ & Ht); [reflexivity | vm_compute; lia |].
  rewrite Ht. reflexivity.
Defined.
(** * Showing again *)

(** ** With a floating node, nothing but [dispose] touches it *)

Lemma _show_node_benign r o x n :
  _tooltipNode (this x) = Elem n ->
  wp (_show r o) (fun _ s' => benign x s') x.
Proof.
  intros Hn. unfold _show. apply wp_bind, wp_get_this.
  destruct (_isOpen (this x)); [apply wp_ret, benign_refl|].
  apply wp_bind, wp_modify. rewrite Hn.
  wp_steps; eauto 10 with benign.
Qed.

Lemma call_listener_benign l evt x :
  wp (call_listener l evt) (fun _ s' => benign x s') x.
Proof.
  unfold call_listener. apply wp_bind, wp_get_this. destruct l.
  - wp_steps; eauto with benign.
    wp_call _scheduleShow_benign x; wp_steps; done.
  - wp_steps; eauto with benign.
    wp_call _scheduleHide_benign x; wp_steps; done.
  - apply wp_bind. wp_call transfer_callback_body_benign x; wp_steps; done.
Qed.

Lemma invoke_listeners_benign target ls : forall evt s x,
  benign s x ->
  wp (invoke_listeners target ls evt) (fun _ s' => benign s s') x.
Proof.
  induction ls as [|l ls IH]; intros evt s x H; simpl.
  - by apply wp_ret.
  - apply wp_bind, wp_get. apply wp_bind. case_decide.
    + apply wp_reported. eapply wp_mono; [apply call_listener_benign|].
      cbv beta. intros [?|?] s' Hs'; apply IH; by eapply benign_trans.
    + apply wp_ret. by apply IH.
Qed.

Lemma call_timer_benign c x n :
  _tooltipNode (this x) = Elem n ->
  wp (call_timer c) (fun _ s' => benign x s') x.
Proof.
  intros Hn. unfold call_timer. apply wp_bind, wp_get_this. destruct c.
  - apply wp_bind. eapply wp_mono; [by eapply _show_node_benign|].
    cbv beta. intros [?|?] ? ?; [by apply wp_ret|done].
  - apply hide_timer_body_benign, benign_refl.
Qed.

(** Any action but [dispose()], on a controller with a floating node. *)
Lemma perform_benign a x n :
  _tooltipNode (this x) = Elem n ->
  disposes a = false ->
  benign x (perform a x).2.
Proof.
  intros Hn Ha.
  change (wp (perform a) (fun _ s' => benign x s') x).
  assert (Hshow : wp show (fun _ s' => benign x s') x).
  { unfold show. apply wp_bind, wp_get_this. by eapply _show_node_benign. }
  assert (Hhide : wp hide (fun _ s' => benign x s') x)
    by apply _hide_benign, benign_refl.
  destruct a; simpl; try done.
  - apply wp_bind. eapply wp_mono; [exact Hshow|].
    intros [?|?] ? ?; [by apply wp_ret|done].
  - apply wp_bind. eapply wp_mono; [exact Hhide|].
    intros [?|?] ? ?; [by apply wp_ret|done].
  - apply wp_bind. unfold toggle at 1. apply wp_bind, wp_get_this.
    destruct (_isOpen (this x)).
    + eapply wp_mono; [exact Hhide|]. intros [?|?] ? ?; [by apply wp_ret|done].
    + eapply wp_mono; [exact Hshow|]. intros [?|?] ? ?; [by apply wp_ret|done].
  - unfold dispatchEvent. apply wp_bind, wp_get.
    apply invoke_listeners_benign, benign_refl.
  - unfold fire_timer. apply wp_bind, wp_get.
    destruct (timers (window x) !! i) as [[ms callback]|]; [|apply wp_ret, benign_refl].
    apply wp_bind, wp_modify. apply wp_reported.
    eapply wp_mono; [by eapply (call_timer_benign callback)|].
    cbv beta. intros [?|?] s' Hs'.
    all: eapply benign_trans; [apply benign_timers, benign_refl|exact Hs'].
Qed.

Lemma after_benign more : forall s n,
  _tooltipNode (this s) = Elem n ->
  forallb (fun a => negb (disposes a)) more = true ->
  benign s (after more s).
Proof.
  induction more as [|a more IH]; intros s n Hn Hmore; simpl in *.
  - apply benign_refl.
  - apply andb_prop in Hmore as [Ha Hmore]. apply negb_true_iff in Ha.
    pose proof (perform_benign a s n Hn Ha) as Hb.
    eapply benign_trans; [exact Hb|].
    apply (IH _ n); [|done]. by rewrite (benign_node _ _ Hb).
Qed.

(** ** The claim *)

(** C5 as stated fails: the floating node that exists after a first
    [show()] is not the one a [show()] after [dispose()] uses.  The first
    show creates elements 3 to 6 with 4 as the floating node; after
    [dispose()], the next show creates elements 7 to 10 and a second
    instance, and 8 is the floating node. *)
Lemma show_after_dispose_creates_another_node :
  let s := after [CallShow] (new_Tooltip 2 no_options page) in
  let s' := after [CallDispose; CallShow] s in
  _tooltipNode (this s) = Elem 4 /\
  _tooltipNode (this s') = Elem 8 /\
  length (elements (window s)) = 7 /\
  length (elements (window s')) = 11 /\
  length (poppers (window s)) = 1 /\
  length (poppers (window s')) = 2.
Proof. vm_compute. by repeat split. Qed.

(** C5, amended: [show()] on an open controller returns the controller
    and changes nothing.  Once a controller has a floating node, the node
    stays the same one through every call of show, hide and toggle, every
    event and every timer, as long as [dispose()] is not called, and no
    element is created meanwhile.  A [show()] then returns the controller
    open with that node, its [display] cleared and its handle live,
    without creating an element or an instance; when the controller was
    closed, the handle is asked to recompute once. *)
Theorem show_reuses_node_until_dispose r user w actions more :
  let s := after actions (new_Tooltip r user w) in
  let s1 := after more s in
  let s2 := (show s1).2 in
  (forall x, _isOpen (this x) = true -> show x = (Normal ReturnsThis, x)) /\
  (forall n, _tooltipNode (this s) = Elem n ->
     forallb (fun a => negb (disposes a)) more = true ->
     (_tooltipNode (this s1) = Elem n /\
      length (elements (window s1)) = length (elements (window s)) /\
      popperInstance (this s1) = popperInstance (this s)) /\
     (show s1).1 = Normal ReturnsThis /\
     _isOpen (this s2) = true /\
     _tooltipNode (this s2) = Elem n /\
     length (elements (window s2)) = length (elements (window s)) /\
     style_display (element_at (elements (window s2)) n) = "" /\
     length (poppers (window s2)) = length (poppers (window s1)) /\
     popperInstance (this s2) = popperInstance (this s) /\
     handle_live s2 = true /\
     (_isOpen (this s1) = false ->
        exists p i,
          popperInstance (this s1) = Some p /\
          poppers (window s1) !! p = Some i /\
          popper_updates <$> poppers (window s2) !! p = Some (S (popper_updates i)))).
Proof.
  intros s s1 s2.
  assert (Hopened : forall x, _isOpen (this x) = true -> show x = (Normal ReturnsThis, x)).
  { intros x Hopen. unfold show, _show, bind, get_this, get, ret. simpl. by rewrite Hopen. }
  split; [exact Hopened|].
  intros n Hn Hmore.
  destruct (after_benign more s n Hn Hmore) as [_ _ Hn1 Hp1 _ Hlen1 _ _]. fold s1 in Hn1, Hp1, Hlen1.
  rewrite Hn in Hn1.
  assert (Hst1 : steady s1).
  { unfold s1, s, after. rewrite <- foldl_app. apply reachable_steady. }
  destruct Hst1 as [Hc1 Hs1].
  destruct (consistent_node s1 n Hc1 Hn1) as (Hlt & p & i & Hp & Hi & Hlive).
  split; [done|].
  destruct (_isOpen (this s1)) eqn:Hopen.
  - subst s2. rewrite (Hopened s1 Hopen). simpl.
    specialize (Hs1 n Hn1). rewrite Hopen in Hs1.
    repeat split; try done.
    apply Hc1. by exists n.
  - subst s2. rewrite (show_closed_node s1 n p Hopen Hn1 Hp). simpl.
    rewrite !length_alter, element_at_alter_eq by done.
    repeat split; try done.
    + unfold handle_live, live. simpl. rewrite Hp, list_lookup_alter_eq, Hi. simpl.
      by rewrite Hlive.
    + intros _. exists p, i. by rewrite list_lookup_alter_eq, Hi.
Qed.

Lemma show_reuses_node_until_dispose_witness :
  let s := after [CallShow] (new_Tooltip 2 no_options page) in
  let more := [CallHide; CallToggle; Dispatch 2 leave_to_body; Fire 0] in
  _tooltipNode (this s) = Elem 4 /\
  _isOpen (this (after more s)) = false /\
  _isOpen (this (show (after more s)).2) = true /\
  _tooltipNode (this (show (after more s)).2) = Elem 4.
Proof.
  split; [reflexivity|]. split; [reflexivity|].
  pose proof (show_reuses_node_until_dispose 2 no_options page [CallShow]
                [CallHide; CallToggle; Dispatch 2 leave_to_body; Fire 0]) as [_ H].
  destruct (H 4) as (_ & _ & Hopen & Hn & _);
    [reflexivity | reflexivity | split; [exact Hopen|exact Hn]].
Defined.
